(** * Shape-grammar placement of 2-D baggage objects

    A shallow embedding of [src/lib/bag_generator/baggage_creator_2d.py]:
    the occupancy canvas and object masks as numpy-style 2-D arrays, the
    commit of an object into the canvas, the primitive rasterizer's crop,
    the liquid container rule, the overlap rule, the gravity rule and the
    sheet midpoint recursion.

    numpy integers and float64 values that are integral are modelled as
    [Z]; the liquid level, a float in the source, is a rational [Q]. *)

From Stdlib Require Import ZArith List Lia Bool QArith.
Import ListNotations.

Open Scope Z_scope.

(* ------------------------------------------------------------------ *)
(** ** numpy 2-D arrays *)

(** A 2-D array: shape [(rows, cols)] and its entries, read at
    [0 <= r < rows], [0 <= c < cols]. *)
Record arr2 := mk_arr2 { rows : Z; cols : Z; get : Z -> Z -> Z }.

(** Integer ranges [start, start+1, ..., stop-1] (Python's [range]). *)
Definition zrange (start stop : Z) : list Z :=
  map (fun k => start + Z.of_nat k) (seq 0 (Z.to_nat (stop - start))).

(** Python's normalisation of a slice bound [i] on a sequence of length
    [n] (step 1): negative bounds count from the end, then clamp. *)
Definition py_norm (n i : Z) : Z :=
  if i <? 0 then Z.max 0 (i + n) else Z.min i n.

(** [a[s:e]] selects the indices [fst b <= k < snd b]. *)
Definition slice_bounds (n s e : Z) : Z * Z :=
  let s' := py_norm n s in
  let e' := py_norm n e in
  (s', Z.max s' e').

(** Basic slicing [a[r0:r1, c0:c1]]. *)
Definition sub2 (a : arr2) (r0 r1 c0 c1 : Z) : arr2 :=
  let '(rs, re) := slice_bounds (rows a) r0 r1 in
  let '(cs, ce) := slice_bounds (cols a) c0 c1 in
  mk_arr2 (re - rs) (ce - cs) (fun r c => get a (r + rs) (c + cs)).

(** A 2-D array from a list of rows (all of the length of the first). *)
Definition of_rows (l : list (list Z)) : arr2 :=
  mk_arr2 (Z.of_nat (length l))
          (Z.of_nat (length (hd [] l)))
          (fun r c => if (r <? 0) || (c <? 0) then 0
                      else nth (Z.to_nat c) (nth (Z.to_nat r) l []) 0).

(** The rows of an array, for inspection of concrete results. *)
Definition to_rows (a : arr2) : list (list Z) :=
  map (fun r => map (fun c => get a r c) (zrange 0 (cols a)))
      (zrange 0 (rows a)).

(** [np.where(a)]: the nonzero positions in raster order. *)
Definition where2 (a : arr2) : list (Z * Z) :=
  flat_map (fun r => map (fun c => (r, c))
                         (filter (fun c => negb (get a r c =? 0))
                                 (zrange 0 (cols a))))
           (zrange 0 (rows a)).

(* ------------------------------------------------------------------ *)
(** ** [BaggageImage2D.place_object_in_bag] *)

(** The commit of an object mask [data] at [pose] into the canvas slice
    [ws]:
<<
        s_shape = self.ws_bag[p0:p0+h, p1:p1+w, self.slice_no].shape
        b_data = bag_obj.data[:s_shape[0], :s_shape[1]].copy()
        nz = np.where(b_data)
        self.ws_bag[p0:p0+h, p1:p1+w, self.slice_no][nz] = b_data[nz]
>>
    The slice is a view, so the assignment writes the canvas at the
    view's offset [(rs, cs)]. *)
Definition place_object_in_bag (ws data : arr2) (pose : Z * Z) : arr2 :=
  let '(p0, p1) := pose in
  let '(rs, re) := slice_bounds (rows ws) p0 (p0 + rows data) in
  let '(cs, ce) := slice_bounds (cols ws) p1 (p1 + cols data) in
  let b_data := sub2 data 0 (re - rs) 0 (ce - cs) in
  mk_arr2 (rows ws) (cols ws)
    (fun r c =>
       if (rs <=? r) && (r <? re) && (cs <=? c) && (c <? ce)
          && negb (get b_data (r - rs) (c - cs) =? 0)
       then get b_data (r - rs) (c - cs)
       else get ws r c).

(** An array of zeros ([np.zeros((n, m))]). *)
Definition zeros (n m : Z) : arr2 := mk_arr2 n m (fun _ _ => 0).

(* ------------------------------------------------------------------ *)
(** ** The primitive rasterizer *)

Definition is_nil {A : Type} (l : list A) : bool :=
  match l with [] => true | _ => false end.

Definition list_min (d : Z) (l : list Z) : Z :=
  match l with [] => d | x :: t => fold_left Z.min t x end.
Definition list_max (d : Z) (l : list Z) : Z :=
  match l with [] => d | x :: t => fold_left Z.max t x end.

(** The crop that [create_ellipse], [create_rectanguloid],
    [create_trapezoid] and [create_custom_object] all apply to their
    rasterized mask:
<<
        coord = np.where(mask)
        dim   = coord[0].max()-coord[0].min()+1, coord[1].max()-coord[1].min()+1
        bin_image = mask[coord[0].min(): coord[0].min()+dim[0]+1,
                         coord[1].min(): coord[1].min()+dim[1]+1]
>>
    An all-background mask makes [.max()] raise, modelled as [None]. *)
Definition crop_to_foreground (mask : arr2) : option arr2 :=
  let nz := where2 mask in
  if is_nil nz then None
  else
      let rmin := list_min 0 (map fst nz) in
      let rmax := list_max 0 (map fst nz) in
      let cmin := list_min 0 (map snd nz) in
      let cmax := list_max 0 (map snd nz) in
      let dim0 := rmax - rmin + 1 in
      let dim1 := cmax - cmin + 1 in
      Some (sub2 mask rmin (rmin + dim0 + 1) cmin (cmin + dim1 + 1)).

(** [skimage.draw.ellipse(r0, c0, r_radius, c_radius, shape, rotation=0)]
    for positive radii: the pixels of the clipped bounding box
    [round(center -+ radii)] whose normalised distance
    [((r-r0)/r_radius)**2 + ((c-c0)/c_radius)**2] is below 1, compared here
    in exact integer arithmetic ([rotation = 0] makes the rotated radii
    the radii themselves). *)
Definition ellipse_rot0 (r0 c0 ra ca : Z) (shape : Z * Z) : list (Z * Z) :=
  let '(s0, s1) := shape in
  let rlo := Z.max 0 (r0 - ra) in let rhi := Z.min (s0 - 1) (r0 + ra) in
  let clo := Z.max 0 (c0 - ca) in let chi := Z.min (s1 - 1) (c0 + ca) in
  flat_map (fun r =>
    map (fun c => (r, c))
      (filter (fun c => (r - r0) * (r - r0) * (ca * ca)
                        + (c - c0) * (c - c0) * (ra * ra) <? ra * ra * (ca * ca))
              (zrange clo (chi + 1))))
    (zrange rlo (rhi + 1)).

(** [mask = zeros(shape); mask[rr, cc] = 1]. *)
Definition mask_of_pixels (s0 s1 : Z) (px : list (Z * Z)) : arr2 :=
  mk_arr2 s0 s1 (fun r c =>
    if existsb (fun p => (fst p =? r) && (snd p =? c)) px then 1 else 0).

(** [Object2D.create_ellipse] for an unrotated ellipse ([theta[0] = 0])
    with integer semi-axes [axes = (a0, a1)]; the result is [self.data]. *)
Definition create_ellipse_rot0 (a0 a1 : Z) : option arr2 :=
  let m := Z.max a0 a1 in
  let px := ellipse_rot0 (m + 1) (m + 1) a0 a1 (2 * m + 1, 2 * m + 1) in
  crop_to_foreground (mask_of_pixels (2 * m + 1) (2 * m + 1) px).

(** Column [j] of [a] holds background only. *)
Definition col_empty (a : arr2) (j : Z) : bool :=
  forallb (fun r => get a r j =? 0) (zrange 0 (rows a)).
Definition row_empty (a : arr2) (i : Z) : bool :=
  forallb (fun c => get a i c =? 0) (zrange 0 (cols a)).

(** The mask's foreground bounding box is its full extent: no border row
    or column is all background. *)
Definition tight_mask (a : arr2) : bool :=
  (0 <? rows a) && (0 <? cols a) &&
  negb (row_empty a 0) && negb (row_empty a (rows a - 1)) &&
  negb (col_empty a 0) && negb (col_empty a (cols a - 1)).

(* ------------------------------------------------------------------ *)
(** ** The liquid container rule *)

(** The exceptions the modelled numpy, scipy and skimage calls raise. *)
Inductive py_exc := ValueError | RuntimeError.

(** [skimage.morphology.disk(radius)]: the offsets [(dr, dc)] of
    [arange(-radius, radius+1)]^2 with [dr**2 + dc**2 <= radius**2]. *)
Definition disk (radius : Z) : list (Z * Z) :=
  flat_map (fun dr => map (fun dc => (dr, dc))
                     (filter (fun dc => dr * dr + dc * dc <=? radius * radius)
                             (zrange (- radius) (radius + 1))))
           (zrange (- radius) (radius + 1)).

(** [scipy.ndimage.binary_erosion(img, structure, border_value)] for a
    footprint centred on its middle: a pixel stays iff every pixel the
    centred footprint covers is foreground, pixels outside the image counting
    as [border_value].  An empty footprint is rejected ([structure must
    not be empty]). *)
Definition binary_erosion (border_value : bool) (img : arr2) (fp : list (Z * Z))
  : py_exc + arr2 :=
  if is_nil fp then inl RuntimeError
  else inr (mk_arr2 (rows img) (cols img) (fun r c =>
    if forallb (fun d =>
          let r' := r + fst d in let c' := c + snd d in
          if (0 <=? r') && (r' <? rows img) && (0 <=? c') && (c' <? cols img)
          then negb (get img r' c' =? 0) else border_value) fp
    then 1 else 0)).

(** [skimage.morphology.binary_erosion] calls scipy's with
    [border_value=True]. *)
Definition sk_binary_erosion (img : arr2) (fp : list (Z * Z)) : py_exc + arr2 :=
  binary_erosion true img fp.

(** [a // k] elementwise (numpy integer floor division, [x // 0 = 0]). *)
Definition floordiv2 (a : arr2) (k : Z) : arr2 :=
  mk_arr2 (rows a) (cols a) (fun r c => Z.div (get a r c) k).

(** [a[:e, :] = 0]. *)
Definition zero_rows_upto (a : arr2) (e : Z) : arr2 :=
  let '(rs, re) := slice_bounds (rows a) 0 e in
  mk_arr2 (rows a) (cols a) (fun r c =>
    if (rs <=? r) && (r <? re) then 0 else get a r c).

(** [a[np.where(m)] = v] for a mask [m] of the shape of [a]. *)
Definition assign_where (a m : arr2) (v : Z) : arr2 :=
  mk_arr2 (rows a) (cols a) (fun r c =>
    if (0 <=? r) && (r <? rows a) && (0 <=? c) && (c <? cols a)
       && negb (get m r c =? 0) then v else get a r c).

(** [int(x)] on a float: truncation toward zero. *)
Definition py_int_of_Q (x : Q) : Z := Z.quot (Qnum x) (Zpos (Qden x)).

(** The fields of a liquid-flagged [Object2D] the rule reads and writes. *)
Record container := mk_container {
  data : arr2;             (* self.data = label * mask *)
  label : Z;               (* self.label *)
  cntr_thickness : Z;      (* self.cntr_thickness *)
  lqd_level : Q;           (* self.lqd_level *)
  lqd_label : Z            (* self.lqd_label *)
}.

(** The body of the [try] block up to its first write: the eroded cavity
    and the part of it at or below the fill line.
<<
            bin_data = self.data.copy()//self.label
            erode_elem = disk(self.cntr_thickness)
            eroded_img = binary_erosion(bin_data, selem=erode_elem)
            e_row, temp1 = np.where(eroded_img)
            e_fill = int((1 - self.lqd_level) * (e_row.max() - e_row.min()))
            e_fill_img = eroded_img.copy()
            e_fill_img[:e_fill, :] = 0
>> *)
Definition liquid_cavity (o : container) : py_exc + (arr2 * arr2) :=
  let bin_data := floordiv2 (data o) (label o) in
  match sk_binary_erosion bin_data (disk (cntr_thickness o)) with
  | inl e => inl e
  | inr eroded_img =>
      let e_row := map fst (where2 eroded_img) in
      if is_nil e_row then inl ValueError          (* max() of an empty array *)
      else
        let e_fill := py_int_of_Q ((1 - lqd_level o)
                        * inject_Z (list_max 0 e_row - list_min 0 e_row)) in
        inr (eroded_img, zero_rows_upto eroded_img e_fill)
  end.

(** [Object2D.apply_liquid_container_rule]: any exception is swallowed by
    the bare [except: pass]; otherwise the cavity is marked [-1] and its
    filled part relabelled with the liquid's label. *)
Definition apply_liquid_container_rule (o : container) : container :=
  match liquid_cavity o with
  | inl _ => o
  | inr (eroded_img, e_fill_img) =>
      let d1 := assign_where (data o) eroded_img (-1) in
      let d2 := assign_where d1 e_fill_img (lqd_label o) in
      mk_container d2 (label o) (cntr_thickness o) (lqd_level o) (lqd_label o)
  end.

(** [self.label * self.data] for a 0/1 mask. *)
Definition scale2 (k : Z) (a : arr2) : arr2 :=
  mk_arr2 (rows a) (cols a) (fun r c => k * get a r c).

(** A liquid-flagged unrotated ellipse container of label 4 with liquid
    label 9 (the [self.data = self.label*self.data] of the constructor). *)
Definition ellipse_container (a0 a1 thickness : Z) (level : Q) : container :=
  match create_ellipse_rot0 a0 a1 with
  | Some m => mk_container (scale2 4 m) 4 thickness level 9
  | None => mk_container (zeros 0 0) 4 thickness level 9
  end.

(* ------------------------------------------------------------------ *)
(** ** Connected components and the choice of the overlap segment *)

(** All entries of [a] in raster order (the values [a.max()] and
    [a[a == x]] range over). *)
Definition arr_values (a : arr2) : list Z :=
  flat_map (fun r => map (fun c => get a r c) (zrange 0 (cols a)))
           (zrange 0 (rows a)).

(** The in-range test of numpy indexing. *)
Definition in_bounds (a : arr2) (r c : Z) : bool :=
  (0 <=? r) && (r <? rows a) && (0 <=? c) && (c <? cols a).

(** A copy of [a] whose entries are stored in lists, so that iterating a
    step over it does not rebuild the whole history at every read. *)
Definition materialize (a : arr2) : arr2 :=
  let l := to_rows a in
  mk_arr2 (rows a) (cols a)
    (fun r c => if (r <? 0) || (c <? 0) then 0
                else nth (Z.to_nat c) (nth (Z.to_nat r) l []) 0).

(** The 8 neighbours of a pixel ([connectivity = a.ndim = 2]). *)
Definition nbrs8 : list (Z * Z) :=
  [(-1, -1); (-1, 0); (-1, 1); (0, -1); (0, 1); (1, -1); (1, 0); (1, 1)].

(** Every foreground pixel starts with its own raster index plus one. *)
Definition cc_seed (a : arr2) : arr2 :=
  mk_arr2 (rows a) (cols a) (fun r c =>
    if in_bounds a r c && negb (get a r c =? 0) then r * cols a + c + 1 else 0).

(** One round of propagation: a foreground pixel takes the least value
    among itself and its foreground neighbours. *)
Definition cc_step (l : arr2) : arr2 :=
  materialize (mk_arr2 (rows l) (cols l) (fun r c =>
    let v := get l r c in
    if v =? 0 then 0
    else fold_left (fun m d =>
           let r' := r + fst d in let c' := c + snd d in
           if in_bounds l r' c' && negb (get l r' c' =? 0)
           then Z.min m (get l r' c') else m) nbrs8 v)).

(** The distinct values of a list in order of first occurrence. *)
Fixpoint first_occ (l seen : list Z) : list Z :=
  match l with
  | [] => rev seen
  | h :: t => if existsb (Z.eqb h) seen then first_occ t seen
              else first_occ t (h :: seen)
  end.

Fixpoint index_of (x : Z) (l : list Z) : Z :=
  match l with [] => 0 | h :: t => if h =? x then 0 else 1 + index_of x t end.

(** Renumber the nonzero values [1, 2, ...] in raster order of their first
    pixel. *)
Definition cc_relabel (l : arr2) : arr2 :=
  let firsts := first_occ (filter (fun v => negb (v =? 0)) (arr_values l)) [] in
  mk_arr2 (rows l) (cols l) (fun r c =>
    let v := get l r c in if v =? 0 then 0 else index_of v firsts + 1).

(** [skimage.measure.label(a)] with its defaults (background 0, full
    connectivity): the 8-connected components of the nonzero pixels,
    numbered 1, 2, ... in raster order of each component's first pixel.
    After [rows * cols] rounds every pixel holds the least seed of its
    component. *)
Definition measure_label (a : arr2) : arr2 :=
  cc_relabel (Nat.iter (Z.to_nat (rows a * cols a)) cc_step (cc_seed a)).

(** [a.max()] ([ValueError] on an empty array). *)
Definition arr_max (a : arr2) : py_exc + Z :=
  let v := arr_values a in
  if is_nil v then inl ValueError else inr (list_max 0 v).

Fixpoint sum_list (l : list Z) : Z :=
  match l with [] => 0 | h :: t => h + sum_list t end.

(** [obj_int_bin[obj_int_bin==x].sum()//x]. *)
Definition pix_cnt (L : arr2) (x : Z) : Z :=
  sum_list (filter (fun v => v =? x) (arr_values L)) / x.

(** [np.argmax]: the first index of a maximal entry. *)
Fixpoint argmax_aux (l : list Z) (i best : nat) (bv : Z) : nat :=
  match l with
  | [] => best
  | h :: t => if bv <? h then argmax_aux t (S i) i h else argmax_aux t (S i) best bv
  end.

Definition np_argmax (l : list Z) : py_exc + Z :=
  match l with
  | [] => inl ValueError
  | h :: t => inr (Z.of_nat (argmax_aux t 1 0 h))
  end.

(** The segment choice of [run_shape_grammar_overlap], on the labelled
    intersection [L = label(obj_int.astype(bool))]:
<<
                pix_cnt = [obj_int_bin[obj_int_bin==x].sum()//x
                           for x in range(1,obj_int_bin.max()+1)]
                max_ind = np.argmax(pix_cnt)+1
                obj_int_bin[obj_int_bin!=max_ind] = 0
                obj_int_bin = obj_int_bin.astype(bool)
>>
    The result is a 0/1 mask. *)
Definition choose_segment (L : arr2) : py_exc + arr2 :=
  match arr_max L with
  | inl e => inl e
  | inr m =>
      match np_argmax (map (pix_cnt L) (zrange 1 (m + 1))) with
      | inl e => inl e
      | inr k =>
          let max_ind := k + 1 in
          inr (mk_arr2 (rows L) (cols L) (fun r c =>
                 let v := if negb (get L r c =? max_ind) then 0 else get L r c in
                 if v =? 0 then 0 else 1))
      end
  end.

(** The number of pixels carrying label [x]. *)
Definition label_count (L : arr2) (x : Z) : Z :=
  Z.of_nat (length (filter (fun v => v =? x) (arr_values L))).

(* ------------------------------------------------------------------ *)
(** ** [BaggageImage2D.run_shape_grammar_overlap] *)

(** The fields of [BaggageImage2D] the placement rules use, on the slice
    [self.slice_no], for a bag without a bag mask ([self.bag_mask is
    None]). *)
Record bag := mk_bag {
  ws_bag : arr2;             (* self.ws_bag[:, :, self.slice_no] *)
  boundary : arr2;           (* self.boundary[:, :, self.slice_no] *)
  size : Z;                  (* self.size *)
  bb_h : Z;                  (* self.bb_h *)
  LATERAL_OSC_FLAG : bool    (* self.LATERAL_OSC_FLAG *)
}.

Definition set_ws (b : bag) (w : arr2) : bag :=
  mk_bag w (boundary b) (size b) (bb_h b) (LATERAL_OSC_FLAG b).
Definition set_lat (b : bag) (f : bool) : bag :=
  mk_bag (ws_bag b) (boundary b) (size b) (bb_h b) f.

(** [bag_obj.pose] is a numpy array shared by reference: the store [heap]
    holds the pose arrays, and an object holds the reference [opose] of
    its own.  [pose_list.append(bag_obj.pose)] appends the reference, not a
    copy. *)
Definition heap := list (Z * Z).
Definition pose_at (h : heap) (p : nat) : Z * Z := nth p h (0, 0).
Definition set_pose (h : heap) (p : nat) (v : Z * Z) : heap :=
  firstn p h ++ v :: skipn (S p) h.

Record obj2 := mk_obj2 {
  odata : arr2;      (* bag_obj.data *)
  odim : Z * Z;      (* bag_obj.dim *)
  opose : nat;       (* the pose array bag_obj.pose *)
  is_sheet : bool    (* bag_obj.shape == 'S' *)
}.

(** [ground_y = self.size // 2 + self.bb_h]. *)
Definition ground_y (b : bag) : Z := size b / 2 + bb_h b.

(** [BaggageImage2D.get_overlap]: the canvas with the bag boundary
    cleared, sliced at the pose to the object's extent, and the object's
    mask kept where that region is occupied. *)
Definition get_overlap (b : bag) (od : arr2) (pose : Z * Z) : bool * arr2 :=
  let bag_data := assign_where (ws_bag b) (boundary b) 0 in
  let '(p0, p1) := pose in
  let obj_loc := sub2 bag_data p0 (p0 + rows od) p1 (p1 + cols od) in
  let obj_int := mk_arr2 (rows obj_loc) (cols obj_loc) (fun r c =>
                   get od r c * (if get obj_loc r c =? 0 then 0 else 1)) in
  (negb (is_nil (where2 obj_int)), obj_int).

(** One axis of the row / column shift, from the bounding box [lo, hi] of
    the chosen segment and the last index [maxd] of the intersection. *)
Definition shift_axis (enabled : bool) (lo hi maxd p : Z) : Z :=
  if enabled then
    if (lo =? 0) && (hi =? maxd) then p
    else if hi =? maxd then p - (hi - lo + 1)
    else if lo =? 0 then p + (hi - lo + 1)
    else p
  else p.

(** The local state of the overlap loop. *)
Record ol_loop := mk_ol_loop {
  ol_heap : heap;
  row_shift : bool;
  col_shift : bool;
  lat_flag : bool;          (* self.LATERAL_OSC_FLAG *)
  pose_list : list nat;     (* references to pose arrays *)
  ol_ctr : Z;
  OVERLAP_FLAG : bool;
  obj_int : arr2
}.

(** The body of [while OVERLAP_FLAG:]; [inr (true, _)] is a [break]. *)
Definition overlap_iter (b : bag) (o : obj2) (s : ol_loop)
  : py_exc + (bool * ol_loop) :=
  match choose_segment (measure_label (obj_int s)) with
  | inl e => inl e
  | inr sel =>
      let v := where2 sel in
      if is_nil v then inl ValueError                  (* vrows.min() *)
      else
        let r0 := list_min 0 (map fst v) in let r1 := list_max 0 (map fst v) in
        let c0 := list_min 0 (map snd v) in let c1 := list_max 0 (map snd v) in
        let p := opose o in
        let '(p0, p1) := pose_at (ol_heap s) p in
        let p0' := shift_axis (row_shift s) r0 r1 (rows sel - 1) p0 in
        let p1' := shift_axis (col_shift s) c0 c1 (cols sel - 1) p1 in
        let h1 := set_pose (ol_heap s) p (p0', p1') in
        if ground_y b <=? p0' + fst (odim o) then
          inr (true, mk_ol_loop h1 (row_shift s) (col_shift s) (lat_flag s)
                                (pose_list s) (ol_ctr s) (OVERLAP_FLAG s) (obj_int s))
        else
          let pl := pose_list s ++ [p] in
          let '(h2, rs, cs, lat) :=
            if 2 <=? ol_ctr s then
              let prev_pose := pose_at h1 (nth (length pl - 2) pl O) in
              let cur := pose_at h1 p in
              if (fst cur =? fst prev_pose) && (snd cur =? snd prev_pose)
              then (set_pose h1 p (fst cur - (r1 - r0 + 1), snd cur), false, false, true)
              else (h1, row_shift s, col_shift s, lat_flag s)
            else (h1, row_shift s, col_shift s, lat_flag s) in
          let ctr := ol_ctr s + 1 in
          let '(fl, oi) := get_overlap b (odata o) (pose_at h2 p) in
          inr (ctr =? 10, mk_ol_loop h2 rs cs lat pl ctr fl oi)
  end.

(** The loop, one unit of [fuel] per execution of its body; [None] when
    the fuel runs out. *)
Fixpoint overlap_while (fuel : nat) (b : bag) (o : obj2) (s : ol_loop)
  : option (py_exc + ol_loop) :=
  if negb (OVERLAP_FLAG s) then Some (inr s)
  else
    match fuel with
    | O => None
    | S f =>
        match overlap_iter b o s with
        | inl e => Some (inl e)
        | inr (true, s') => Some (inr s')
        | inr (false, s') => overlap_while f b o s'
        end
    end.

(** [run_shape_grammar_overlap(bag_obj, fix_obj, row_shift, col_shift)]
    with a fuel of [fuel] iterations; it returns the bag and the pose
    store. *)
Definition run_shape_grammar_overlap_fuel (fuel : nat) (b : bag) (h : heap)
    (o : obj2) (fix_obj rsh csh : bool) : option (py_exc + (bag * heap)) :=
  let '(fl, oi) := get_overlap b (odata o) (pose_at h (opose o)) in
  let res := if fl then overlap_while fuel b o
                          (mk_ol_loop h rsh csh (LATERAL_OSC_FLAG b) [opose o] 0 true oi)
             else Some (inr (mk_ol_loop h rsh csh (LATERAL_OSC_FLAG b) [] 0 false oi)) in
  match res with
  | None => None
  | Some (inl e) => Some (inl e)
  | Some (inr s) =>
      let b1 := set_lat b (lat_flag s) in
      if fix_obj
      then Some (inr (set_ws b1 (place_object_in_bag (ws_bag b1) (odata o)
                                   (pose_at (ol_heap s) (opose o))), ol_heap s))
      else Some (inr (b1, ol_heap s))
  end.

(** The loop breaks by [ol_ctr == 10] at the latest, so 10 units of fuel
    are enough. *)
Definition run_shape_grammar_overlap := run_shape_grammar_overlap_fuel 10.

(* ------------------------------------------------------------------ *)
(** ** [BaggageImage2D.run_shape_grammar_overlap_and_gravity] *)

(** [BaggageImage2D._adjust_for_boundaries] for a bag without a bag mask:
    the pose is raised to the lower bound and the mask trimmed to the
    bounds, first along the rows, then along the columns. *)
Definition adjust_for_boundaries (b : bag) (h : heap) (o : obj2) : heap * obj2 :=
  let lo := size b / 2 - bb_h b in
  let up := size b / 2 + bb_h b in
  let p := opose o in
  let '(h1, d0a, da) :=
    let '(p0, p1) := pose_at h p in
    if p0 <=? lo then
      let d0 := fst (odim o) - (lo - p0) in
      (set_pose h p (lo, p1), d0, sub2 (odata o) (- d0) (rows (odata o)) 0 (cols (odata o)))
    else (h, fst (odim o), odata o) in
  let '(d0b, db) :=
    if up <=? fst (pose_at h1 p) + d0a then
      let d0 := d0a - (fst (pose_at h1 p) + d0a - up) in
      (d0, sub2 da 0 d0 0 (cols da))
    else (d0a, da) in
  let '(h2, d1a, dc) :=
    let '(p0, p1) := pose_at h1 p in
    if p1 <=? lo then
      let d1 := snd (odim o) - (lo - p1) in
      (set_pose h1 p (p0, lo), d1, sub2 db 0 (rows db) (- d1) (cols db))
    else (h1, snd (odim o), db) in
  let '(d1b, dd) :=
    if up <=? snd (pose_at h2 p) + d1a then
      let d1 := d1a - (snd (pose_at h2 p) + d1a - up) in
      (d1, sub2 dc 0 (rows dc) 0 d1)
    else (d1a, dc) in
  (h2, mk_obj2 dd (d0b, d1b) p (is_sheet o)).

(** The inner [while OVERLAP_FLAG:] loop of the gravity rule, one unit of
    fuel per iteration; it returns the bag, the pose store, [ol_ctr] and
    [osc_cond]. *)
Fixpoint settle_while (fuel : nat) (b : bag) (h : heap) (o : obj2) (ctr : Z)
    (prev_pose : Z * Z) (ovl osc : bool) : option (py_exc + (bag * heap * Z * bool)) :=
  if negb ovl then Some (inr (b, h, ctr, osc))
  else
    match fuel with
    | O => None
    | S f =>
        let ctr' := ctr + 1 in
        match run_shape_grammar_overlap b h o false true true with
        | None => None
        | Some (inl e) => Some (inl e)
        | Some (inr (b1, h1)) =>
            let cur := pose_at h1 (opose o) in
            let fl := fst (get_overlap b1 (odata o) cur) in
            let osc' := (fst cur =? fst prev_pose) && (snd cur =? snd prev_pose) in
            if 10 <? ctr' then Some (inr (b1, h1, 0, osc'))
            else settle_while f b1 h1 o ctr' prev_pose fl osc'
        end
    end.

(** The state of the descent loop. *)
Record gstate := mk_gstate {
  g_bag : bag; g_heap : heap; g_obj : obj2; g_ol_ctr : Z; drop_ctr : Z }.

Section Gravity.

(** The branch for sheet objects ([bag_obj.shape == 'S']) is left
    abstract: from the bag, the pose store after the drop and the object
    it returns whether the loop breaks, and the new bag, store and object. *)
Variable sheet_rule : bag -> heap -> obj2 -> option (py_exc + (bool * (bag * heap * obj2))).

(** One outer iteration of [while drop_ctr < 50:]; [true] is a [break]. *)
Definition gravity_iter (z_inc : Z) (gs : gstate) : option (py_exc + (bool * gstate)) :=
  let b := set_lat (g_bag gs) false in
  let o := g_obj gs in
  let p := opose o in
  let dc := drop_ctr gs + 1 in
  let prev_pose := pose_at (g_heap gs) p in
  let h1 := set_pose (g_heap gs) p (fst prev_pose + z_inc, snd prev_pose) in
  let gy := ground_y b in
  if is_sheet o then
    match sheet_rule b h1 o with
    | None => None
    | Some (inl e) => Some (inl e)
    | Some (inr (brk, (b', h', o'))) => Some (inr (brk, mk_gstate b' h' o' (g_ol_ctr gs) dc))
    end
  else
    let pose := pose_at h1 p in
    let GROUND_FLAG := gy <=? fst pose + fst (odim o) in
    let ovl := fst (get_overlap b (odata o) pose) in
    if GROUND_FLAG then
      let g_diff := fst pose + fst (odim o) - gy in
      let h2 := set_pose h1 p (fst pose - g_diff, snd pose) in
      if fst (get_overlap b (odata o) (pose_at h2 p)) then
        match run_shape_grammar_overlap b h2 o false false true with
        | None => None
        | Some (inl e) => Some (inl e)
        | Some (inr (b3, h3)) =>
            Some (inr (true, mk_gstate
              (set_ws b3 (place_object_in_bag (ws_bag b3) (odata o) (pose_at h3 p)))
              h3 o (g_ol_ctr gs) dc))
        end
      else Some (inr (true, mk_gstate b h2 o (g_ol_ctr gs) dc))
    else
      let settled :=
        if ovl then settle_while 11 (set_lat b false) h1 o (g_ol_ctr gs) prev_pose true false
        else Some (inr (b, h1, g_ol_ctr gs, false)) in
      match settled with
      | None => None
      | Some (inl e) => Some (inl e)
      | Some (inr (b4, h4, ctr, osc)) =>
          Some (inr (osc || LATERAL_OSC_FLAG b4, mk_gstate b4 h4 o ctr dc))
      end.

(** [while drop_ctr < 50:], one unit of fuel per iteration. *)
Fixpoint gravity_while (fuel : nat) (z_inc : Z) (gs : gstate) : option (py_exc + gstate) :=
  if drop_ctr gs <? 50 then
    match fuel with
    | O => None
    | S f =>
        match gravity_iter z_inc gs with
        | None => None
        | Some (inl e) => Some (inl e)
        | Some (inr (true, gs')) => Some (inr gs')
        | Some (inr (false, gs')) => gravity_while f z_inc gs'
        end
    end
  else Some (inr gs).

(** [run_shape_grammar_overlap_and_gravity(bag_obj, z_inc)]: the descent,
    then [_adjust_for_boundaries] and the commit. *)
Definition run_shape_grammar_overlap_and_gravity_fuel (fuel : nat) (z_inc : Z)
    (b : bag) (h : heap) (o : obj2) : option (py_exc + (bag * heap * obj2)) :=
  match gravity_while fuel z_inc (mk_gstate b h o 0 0) with
  | None => None
  | Some (inl e) => Some (inl e)
  | Some (inr gs) =>
      let '(h', o') := adjust_for_boundaries (g_bag gs) (g_heap gs) (g_obj gs) in
      let b' := g_bag gs in
      Some (inr (set_ws b' (place_object_in_bag (ws_bag b') (odata o')
                              (pose_at h' (opose o'))), h', o'))
  end.

Definition run_shape_grammar_overlap_and_gravity :=
  run_shape_grammar_overlap_and_gravity_fuel 50.

End Gravity.

(** A canvas slice of 3 x 12 whose row 1 is occupied (label 1) in
    columns 0 to 5, in a bag of [size = 4], [bb_h = 4] (floor row 6), and
    a 1 x 3 object [[2, 0, 0]] whose pose array, reference 0, holds
    [(1, 0)]. *)
Definition osc_bag : bag :=
  mk_bag (mk_arr2 3 12 (fun r c => if (r =? 1) && (c <? 6) then 1 else 0))
         (zeros 3 12) 4 4 false.
Definition osc_obj : obj2 := mk_obj2 (of_rows [[2; 0; 0]]) (1, 3) O false.

(** The state [run_shape_grammar_overlap] enters its loop with. *)
Definition osc_start : ol_loop :=
  mk_ol_loop [(1, 0)] true true false [O] 0 true
             (snd (get_overlap osc_bag (odata osc_obj) (1, 0))).

(* ================================================================== *)
(* ------------------------------------------------------------------ *)
(** ** The sheet midpoint recursion [run_midpoint_recursion] *)

(** The loop [for i in range(dc)] of [skimage.draw.line]'s Bresenham
    rasterizer; the inner [while d >= 0: r += sr; d -= 2 * dc] runs
    [d / (2 * dc) + 1] times when [d >= 0], none otherwise. *)
Fixpoint line_loop (n : nat) (steep : bool) (r c d dr dc sr sc : Z) : list (Z * Z) :=
  match n with
  | O => []
  | S n' =>
      let pt := if steep then (c, r) else (r, c) in
      let k := if 0 <=? d then d / (2 * dc) + 1 else 0 in
      pt :: line_loop n' steep (r + k * sr) (c + sc) (d - k * (2 * dc) + 2 * dr) dr dc sr sc
  end.

(** [skimage.draw.line(r0, c0, r1, c1)]: the raster points, end point
    included. *)
Definition line (r0 c0 r1 c1 : Z) : list (Z * Z) :=
  let dr := Z.abs (r1 - r0) in
  let dc := Z.abs (c1 - c0) in
  let sc := if 0 <? c1 - c0 then 1 else -1 in
  let sr := if 0 <? r1 - r0 then 1 else -1 in
  let '(steep, r, c, dr, dc, sr, sc) :=
    if dc <? dr then (true, c0, r0, dc, dr, sc, sr)
    else (false, r0, c0, dr, dc, sr, sc) in
  line_loop (Z.to_nat dc) steep r c (2 * dr - dc) dr dc sr sc ++ [(r1, c1)].

(** [np.any(ws[line_pts])] for the segment [p -- q]. *)
Definition line_overlap (ws : arr2) (p q : Z * Z) : bool :=
  existsb (fun x => negb (get ws (fst x) (snd x) =? 0)) (line (fst p) (snd p) (fst q) (snd q)).

(** [np.where(ws[:, c] == 0)[0]]. *)
Definition row_zeros (ws : arr2) (c : Z) : list Z :=
  filter (fun r => get ws r c =? 0) (zrange 0 (rows ws)).

(** [row_ind[argmin(abs(row_ind - t))]]: the first entry nearest to [t];
    [None] is the [ValueError] of [argmin] on an empty array. *)
Fixpoint argmin_abs (l : list Z) (t : Z) : option Z :=
  match l with
  | [] => None
  | z :: l' =>
      match argmin_abs l' t with
      | None => Some z
      | Some w => if Z.abs (w - t) <? Z.abs (z - t) then Some w else Some z
      end
  end.

(** The midpoint [np.average(simplex_pts, axis=0).astype(int)] moved to the
    nearest background row of its column. *)
Definition relocate_mid (ws : arr2) (p q : Z * Z) : option (Z * Z) :=
  let m1 := Z.quot (snd p + snd q) 2 in
  match argmin_abs (row_zeros ws m1) (Z.quot (fst p + fst q) 2) with
  | None => None
  | Some r => Some (r, m1)
  end.

(** [array_equal] on points. *)
Definition pt_eqb (x y : Z * Z) : bool := (fst x =? fst y) && (snd x =? snd y).

(** A segment [simplex_pts]: its two end points. *)
Definition seg : Type := ((Z * Z) * (Z * Z))%type.

(** [run_midpoint_recursion(simplex_pts)] on the segment [p -- q], one
    unit of fuel per level of recursion; [dstack] of the two results is
    their concatenation. *)
Fixpoint run_midpoint_recursion_fuel (fuel : nat) (ws : arr2) (p q : Z * Z)
    : option (py_exc + list seg) :=
  match fuel with
  | O => None
  | S f =>
      if line_overlap ws p q then
        match relocate_mid ws p q with
        | None => Some (inl ValueError)
        | Some m =>
            if pt_eqb m p || pt_eqb m q then Some (inr [(p, q)])
            else
              match run_midpoint_recursion_fuel f ws p m with
              | None => None
              | Some (inl e) => Some (inl e)
              | Some (inr l1) =>
                  match run_midpoint_recursion_fuel f ws q m with
                  | None => None
                  | Some (inl e) => Some (inl e)
                  | Some (inr l2) => Some (inr (l1 ++ l2))
                  end
              end
        end
      else Some (inr [(p, q)])
  end.

(** A point of the canvas slice. *)
Definition in_canvas (ws : arr2) (x : Z * Z) : Prop :=
  0 <= fst x < rows ws /\ 0 <= snd x < cols ws.

(** A measure on segments that decreases at every recursive call: first
    the column distance, then how many end points are occupied, then
    twice the row distance plus one when the background end point lies
    below the other. *)
Definition occ (ws : arr2) (x : Z * Z) : Z := if get ws (fst x) (snd x) =? 0 then 0 else 1.
Definition gtb01 (a b : Z) : Z := if b <? a then 1 else 0.
Definition mid_measure (ws : arr2) (p q : Z * Z) : Z :=
  let R := rows ws in
  let dc := Z.abs (snd p - snd q) in
  let dr := Z.abs (fst p - fst q) in
  if dc =? 0 then
    (occ ws p + occ ws q) * (2 * R) + 2 * dr +
    (if occ ws p + occ ws q =? 1 then
       (if occ ws p =? 0 then gtb01 (fst p) (fst q) else gtb01 (fst q) (fst p))
     else 0)
  else if dc =? 1 then
    let y := if snd p <? snd q then p else q in
    let x := if snd p <? snd q then q else p in
    6 * R + occ ws y * (2 * R) + 2 * dr + gtb01 (fst y) (fst x)
  else dc * (6 * R).

(** A 3 x 3 canvas slice whose middle row is occupied in columns 0 and 1. *)
Definition mid_canvas : arr2 := of_rows [[0; 0; 0]; [1; 1; 0]; [0; 0; 0]].

(* ------------------------------------------------------------------ *)
(** ** Sheet inflation and [add_object] *)

(** [binary_dilation(img, footprint)] (scipy's, called by skimage's) for a
    footprint of offsets: a pixel is set iff some offset [d] of the
    footprint reaches it from a foreground pixel [img[r - d]] of the image,
    pixels outside the image counting as background.  An empty footprint
    is rejected ([structure must not be empty]). *)
Definition binary_dilation (img : arr2) (fp : list (Z * Z)) : py_exc + arr2 :=
  if is_nil fp then inl RuntimeError
  else inr (mk_arr2 (rows img) (cols img) (fun r c =>
    if existsb (fun d =>
          let r' := r - fst d in let c' := c - snd d in
          in_bounds img r' c' && negb (get img r' c' =? 0)) fp
    then 1 else 0)).

(** [a[np.where(m)] = v] for a mask [m] whose shape fits in that of [a]
    (the positions [np.where] returns are those of [m]). *)
Definition assign_where_in (a m : arr2) (v : Z) : arr2 :=
  mk_arr2 (rows a) (cols a) (fun r c =>
    if in_bounds m r c && negb (get m r c =? 0) then v else get a r c).

(** [a.astype(bool)] as a 0/1 array. *)
Definition as_bool (a : arr2) : arr2 :=
  mk_arr2 (rows a) (cols a) (fun r c => if get a r c =? 0 then 0 else 1).

(** [BaggageImage2D.inflate_sheet] with [bag_obj.axes[0] = axes0] and
    [bag_obj.label = lbl]:
<<
        bag_obj.data =  binary_dilation(bag_obj.data.astype(bool),
                                               disk(bag_obj.axes[0]))
        OVERLAP_FLAG, overlap_vol = self.get_overlap(bag_obj)
        bag_obj.data[np.where(overlap_vol)] = 0
        bag_obj.data = bag_obj.data.astype(bool)*bag_obj.label
>> *)
Definition inflate_sheet (b : bag) (h : heap) (o : obj2) (axes0 lbl : Z) : py_exc + obj2 :=
  match binary_dilation (as_bool (odata o)) (disk axes0) with
  | inl e => inl e
  | inr dil =>
      let overlap_vol := snd (get_overlap b dil (pose_at h (opose o))) in
      let d := assign_where_in dil overlap_vol 0 in
      inr (mk_obj2 (scale2 lbl (as_bool d)) (odim o) (opose o) (is_sheet o))
  end.

(** numpy broadcasting of a value axis of length [v] onto a target axis
    of length [n]. *)
Definition broadcast_ok (v n : Z) : bool := (v =? n) || (v =? 1).

(** The assignment of [add_object] with both rules disabled:
<<
            self.ws_bag[bag_obj.pose[0]: bag_obj.pose[0] + bag_obj.dim[0]//2,
                      bag_obj.pose[1]: bag_obj.pose[1] + bag_obj.dim[1]//2,
                      self.slice_no] \
                = bag_obj.data
>>
    The mask is broadcast onto the target slice; numpy raises a
    [ValueError] when the shapes do not broadcast. *)
Definition add_object_direct (b : bag) (h : heap) (o : obj2) : py_exc + bag :=
  let ws := ws_bag b in
  let v := odata o in
  let '(p0, p1) := pose_at h (opose o) in
  let '(d0, d1) := odim o in
  let '(rs, re) := slice_bounds (rows ws) p0 (p0 + d0 / 2) in
  let '(cs, ce) := slice_bounds (cols ws) p1 (p1 + d1 / 2) in
  if broadcast_ok (rows v) (re - rs) && broadcast_ok (cols v) (ce - cs) then
    inr (set_ws b (mk_arr2 (rows ws) (cols ws) (fun r c =>
      if (rs <=? r) && (r <? re) && (cs <=? c) && (c <? ce)
      then get v (if rows v =? 1 then 0 else r - rs) (if cols v =? 1 then 0 else c - cs)
      else get ws r c)))
  else inl ValueError.

(** [BaggageImage2D.add_object(bag_obj, with_overlap_rule, with_gravity_rule)]:
    the gravity rule (with its default [z_inc = 50]), the overlap rule
    (with its defaults [fix_obj], [row_shift], [col_shift]), or the
    direct assignment. *)
Definition add_object
    (sheet_rule : bag -> heap -> obj2 -> option (py_exc + (bool * (bag * heap * obj2))))
    (b : bag) (h : heap) (o : obj2) (with_overlap_rule with_gravity_rule : bool)
    : option (py_exc + (bag * heap * obj2)) :=
  if with_gravity_rule then run_shape_grammar_overlap_and_gravity sheet_rule 50 b h o
  else if with_overlap_rule then
    match run_shape_grammar_overlap b h o true true true with
    | None => None
    | Some (inl e) => Some (inl e)
    | Some (inr (b', h')) => Some (inr (b', h', o))
    end
  else
    match add_object_direct b h o with
    | inl e => Some (inl e)
    | inr b' => Some (inr (b', h, o))
    end.

(** * Theorems *)
(* ================================================================== *)

Example place_example :
  to_rows (place_object_in_bag (of_rows [[0;0;0];[0;4;0];[0;0;0]])
                               (of_rows [[5;5];[0;5]]) (1, 1))
  = [[0;0;0];[0;5;5];[0;0;5]].
Proof. reflexivity. Qed.

(** ** The commit *)

Lemma py_norm_range (n i : Z) : 0 <= n -> 0 <= py_norm n i <= n.
Proof. unfold py_norm; intros; destruct (Z.ltb_spec i 0); lia. Qed.

Lemma py_norm_nonneg (n i : Z) : 0 <= i -> py_norm n i = Z.min i n.
Proof. unfold py_norm; intros; destruct (Z.ltb_spec i 0); lia. Qed.

Ltac zcase :=
  repeat match goal with
         | |- context [?x <=? ?y] => destruct (Z.leb_spec x y)
         | |- context [?x <? ?y] => destruct (Z.ltb_spec x y)
         | |- context [?x =? ?y] => destruct (Z.eqb_spec x y)
         end; cbn [andb negb].

Lemma place_get_nonneg (ws data : arr2) (p0 p1 r c : Z) :
  0 <= p0 -> 0 <= p1 -> 0 <= rows data -> 0 <= cols data ->
  0 <= r < rows ws -> 0 <= c < cols ws ->
  get (place_object_in_bag ws data (p0, p1)) r c =
  if (p0 <=? r) && (r <? p0 + rows data) && (p1 <=? c) && (c <? p1 + cols data)
     && negb (get data (r - p0) (c - p1) =? 0)
  then get data (r - p0) (c - p1) else get ws r c.
Proof.
  intros Hp0 Hp1 Hh Hw Hr Hc.
  unfold place_object_in_bag, slice_bounds.
  rewrite !(py_norm_nonneg (rows ws)), !(py_norm_nonneg (cols ws)) by lia.
  unfold sub2, slice_bounds; cbn [get rows cols].
  rewrite !(py_norm_nonneg (rows data)), !(py_norm_nonneg (cols data)) by lia.
  cbn [get]. rewrite (Z.min_l 0 (rows data)), (Z.min_l 0 (cols data)) by lia. rewrite !Z.add_0_r.
  destruct (Z.le_gt_cases p0 (rows ws)); [rewrite (Z.min_l p0) by lia | rewrite (Z.min_r p0) by lia];
  (destruct (Z.le_gt_cases p1 (cols ws)); [rewrite (Z.min_l p1) by lia | rewrite (Z.min_r p1) by lia]);
  zcase; try reflexivity; lia.
Qed.

Lemma py_norm_lipschitz (n i h : Z) :
  0 <= n -> 0 <= h -> py_norm n (i + h) - py_norm n i <= h.
Proof. unfold py_norm; intros; zcase; lia. Qed.

(** For every pose, a cell the commit changes lies in the canvas and now
    holds a foreground (nonzero) pixel of the object's mask. *)
Lemma place_changed (ws data : arr2) (pose : Z * Z) (r c : Z) :
  0 <= rows ws -> 0 <= cols ws -> 0 <= rows data -> 0 <= cols data ->
  get (place_object_in_bag ws data pose) r c <> get ws r c ->
  0 <= r < rows ws /\ 0 <= c < cols ws /\
  exists i j, 0 <= i < rows data /\ 0 <= j < cols data /\
    get data i j <> 0 /\ get (place_object_in_bag ws data pose) r c = get data i j.
Proof.
  destruct pose as [p0 p1]; intros HN HM Hh Hw Hne.
  unfold place_object_in_bag, slice_bounds, sub2, slice_bounds in *; cbn [get rows cols] in *.
  assert (E0 : py_norm (rows data) 0 = 0)
    by (rewrite py_norm_nonneg by lia; lia).
  assert (E1 : py_norm (cols data) 0 = 0)
    by (rewrite py_norm_nonneg by lia; lia).
  rewrite E0, E1 in *. rewrite !Z.add_0_r in *.
  pose proof (py_norm_range (rows ws) p0 HN).
  pose proof (py_norm_range (rows ws) (p0 + rows data) HN).
  pose proof (py_norm_range (cols ws) p1 HM).
  pose proof (py_norm_range (cols ws) (p1 + cols data) HM).
  pose proof (py_norm_lipschitz (rows ws) p0 (rows data) HN Hh).
  pose proof (py_norm_lipschitz (cols ws) p1 (cols data) HM Hw).
  revert Hne; zcase; intro Hne; try (exfalso; apply Hne; reflexivity).
  split; [lia|]. split; [lia|].
  exists (r - py_norm (rows ws) p0), (c - py_norm (cols ws) p1).
  repeat split; lia.
Qed.

(** C1 (counterexample): the commit does not spare labelled cells.  A
    canvas cell holding label 4 lies under a foreground pixel (label 5)
    of a mask committed at pose (0, 0); after the commit it holds 5. *)
Lemma place_object_in_bag_erases_label :
  get (of_rows [[4]]) 0 0 <> 0 /\
  get (place_object_in_bag (of_rows [[4]]) (of_rows [[5]]) (0, 0)) 0 0 <>
  get (of_rows [[4]]) 0 0.
Proof. split; vm_compute; discriminate. Qed.

(** C1 (amended): for a pose with non-negative coordinates, committing an
    object sets every in-canvas cell under a foreground (nonzero) pixel of
    the mask to that pixel's value, whatever the cell held before
    (background or a previously placed label), and leaves every other cell
    unchanged. *)
Theorem place_object_in_bag_writes_foreground (ws data : arr2) (p0 p1 r c : Z) :
  0 <= p0 -> 0 <= p1 -> 0 <= rows data -> 0 <= cols data ->
  0 <= r < rows ws -> 0 <= c < cols ws ->
  get (place_object_in_bag ws data (p0, p1)) r c =
  if (p0 <=? r) && (r <? p0 + rows data) && (p1 <=? c) && (c <? p1 + cols data)
     && negb (get data (r - p0) (c - p1) =? 0)
  then get data (r - p0) (c - p1) else get ws r c.
Proof. apply place_get_nonneg. Qed.

Lemma place_object_in_bag_writes_foreground_witness :
  (0 <= 0 /\ 0 <= 0 /\ 0 <= rows (of_rows [[5]]) /\ 0 <= cols (of_rows [[5]]) /\
   0 <= 0 < rows (of_rows [[4]]) /\ 0 <= 0 < cols (of_rows [[4]])) /\
  get (place_object_in_bag (of_rows [[4]]) (of_rows [[5]]) (0, 0)) 0 0 = 5.
Proof.
  split; [cbn; lia |].
  rewrite (place_object_in_bag_writes_foreground (of_rows [[4]]) (of_rows [[5]]) 0 0 0 0)
    by (cbn; lia).
  reflexivity.
Defined.

(** C10 (counterexample): with a negative pose coordinate Python's slice
    counts from the far edge: a 1x1 mask at pose (-2, 0), entirely above a
    4x4 canvas, is written into canvas row 2. *)
Lemma place_object_in_bag_negative_pose_wraps :
  get (place_object_in_bag (zeros 4 4) (of_rows [[5]]) (-2, 0)) 2 0 = 5 /\
  -2 + rows (of_rows [[5]]) <= 0.
Proof. split; vm_compute; congruence. Qed.

(** C10 (amended): the commit keeps the canvas shape, and for every pose a
    cell it changes lies inside the canvas and receives a foreground pixel
    of the mask; for a pose with non-negative coordinates the cells written
    are exactly the in-canvas part of the mask's foreground at that pose. *)
Theorem place_object_in_bag_in_bounds (ws data : arr2) (p0 p1 : Z) :
  0 <= rows ws -> 0 <= cols ws -> 0 <= rows data -> 0 <= cols data ->
  rows (place_object_in_bag ws data (p0, p1)) = rows ws /\
  cols (place_object_in_bag ws data (p0, p1)) = cols ws /\
  (forall r c, get (place_object_in_bag ws data (p0, p1)) r c <> get ws r c ->
     0 <= r < rows ws /\ 0 <= c < cols ws /\
     exists i j, 0 <= i < rows data /\ 0 <= j < cols data /\ get data i j <> 0 /\
       get (place_object_in_bag ws data (p0, p1)) r c = get data i j) /\
  (0 <= p0 -> 0 <= p1 -> forall r c, 0 <= r < rows ws -> 0 <= c < cols ws ->
     get (place_object_in_bag ws data (p0, p1)) r c =
     if (p0 <=? r) && (r <? p0 + rows data) && (p1 <=? c) && (c <? p1 + cols data)
        && negb (get data (r - p0) (c - p1) =? 0)
     then get data (r - p0) (c - p1) else get ws r c).
Proof.
  intros HN HM Hh Hw.
  split; [unfold place_object_in_bag, slice_bounds; reflexivity |].
  split; [unfold place_object_in_bag, slice_bounds; reflexivity |].
  split.
  - intros r c; apply place_changed; assumption.
  - intros Hp0 Hp1 r c Hr Hc; apply place_get_nonneg; assumption.
Qed.

Lemma place_object_in_bag_in_bounds_witness :
  (0 <= rows (zeros 4 4) /\ 0 <= cols (zeros 4 4) /\
   0 <= rows (of_rows [[5]]) /\ 0 <= cols (of_rows [[5]])) /\
  rows (place_object_in_bag (zeros 4 4) (of_rows [[5]]) (1, 2)) = 4.
Proof.
  split; [cbn; lia |].
  refine (proj1 (place_object_in_bag_in_bounds (zeros 4 4) (of_rows [[5]]) 1 2
                  _ _ _ _)); cbn; lia.
Defined.

(** C2 (code bug): an unrotated ellipse with semi-axes (6, 5) rasterizes to
    an 11 x 10 mask whose last column is all background: the crop keeps one
    column past the foreground. *)
Lemma create_ellipse_6_5_loose :
  exists m, create_ellipse_rot0 6 5 = Some m /\
    rows m = 11 /\ cols m = 10 /\ col_empty m 9 = true /\ tight_mask m = false.
Proof. eexists; split; [reflexivity | vm_compute; repeat split; reflexivity]. Qed.

(** ** Ranges, [np.where] and list extrema *)

Lemma in_zrange (a b k : Z) : In k (zrange a b) <-> a <= k < b.
Proof.
  unfold zrange; rewrite in_map_iff; split.
  - intros [n [<- Hn]]; apply in_seq in Hn; lia.
  - intros Hk; exists (Z.to_nat (k - a)); split; [lia |].
    apply in_seq; lia.
Qed.

Lemma in_where2 (a : arr2) (r c : Z) :
  In (r, c) (where2 a) <-> 0 <= r < rows a /\ 0 <= c < cols a /\ get a r c <> 0.
Proof.
  unfold where2; rewrite in_flat_map; split.
  - intros [r' [Hr' Hin]]; apply in_map_iff in Hin as [c' [He Hc']].
    inversion He; subst; apply filter_In in Hc' as [Hc' Hnz].
    apply in_zrange in Hr', Hc'; apply negb_true_iff, Z.eqb_neq in Hnz; auto.
  - intros (Hr & Hc & Hnz); exists r; split; [apply in_zrange; lia |].
    apply in_map_iff; exists c; split; [reflexivity |].
    apply filter_In; split; [apply in_zrange; lia |].
    apply negb_true_iff, Z.eqb_neq; exact Hnz.
Qed.

Lemma fold_max_ge (t : list Z) (x : Z) :
  x <= fold_left Z.max t x /\ forall y, In y t -> y <= fold_left Z.max t x.
Proof.
  revert x; induction t as [| h t IH]; intros x; cbn.
  - split; [lia | tauto].
  - destruct (IH (Z.max x h)) as [H1 H2]; split; [lia |].
    intros y [<- | Hy]; [lia | auto].
Qed.

Lemma fold_min_le (t : list Z) (x : Z) :
  fold_left Z.min t x <= x /\ forall y, In y t -> fold_left Z.min t x <= y.
Proof.
  revert x; induction t as [| h t IH]; intros x; cbn.
  - split; [lia | tauto].
  - destruct (IH (Z.min x h)) as [H1 H2]; split; [lia |].
    intros y [<- | Hy]; [lia | auto].
Qed.

Lemma fold_max_in (t : list Z) (x : Z) : In (fold_left Z.max t x) (x :: t).
Proof.
  revert x; induction t as [| h t IH]; intros x; cbn; [auto |].
  destruct (IH (Z.max x h)) as [E | Hin].
  - rewrite <- E; destruct (Z.max_spec x h) as [[_ ->] | [_ ->]]; cbn; tauto.
  - cbn; tauto.
Qed.

Lemma fold_min_in (t : list Z) (x : Z) : In (fold_left Z.min t x) (x :: t).
Proof.
  revert x; induction t as [| h t IH]; intros x; cbn; [auto |].
  destruct (IH (Z.min x h)) as [E | Hin].
  - rewrite <- E; destruct (Z.min_spec x h) as [[_ ->] | [_ ->]]; cbn; tauto.
  - cbn; tauto.
Qed.

Lemma list_max_spec (d : Z) (l : list Z) :
  l <> [] -> In (list_max d l) l /\ forall y, In y l -> y <= list_max d l.
Proof.
  destruct l as [| x t]; [congruence |]; intros _; cbn.
  split; [apply fold_max_in |].
  destruct (fold_max_ge t x) as [H1 H2]; intros y [<- | Hy]; auto.
Qed.

Lemma list_min_spec (d : Z) (l : list Z) :
  l <> [] -> In (list_min d l) l /\ forall y, In y l -> list_min d l <= y.
Proof.
  destruct l as [| x t]; [congruence |]; intros _; cbn.
  split; [apply fold_min_in |].
  destruct (fold_min_le t x) as [H1 H2]; intros y [<- | Hy]; auto.
Qed.

(** The crop keeps one column past the foreground whenever the mask has
    one: if no foreground pixel reaches the mask's last column, the
    cropped mask ends with an all-background column.  This holds for every
    primitive that uses the crop. *)
Lemma crop_to_foreground_extra_col (mask m : arr2) :
  crop_to_foreground mask = Some m ->
  (forall r c, 0 <= r < rows mask -> 0 <= c < cols mask -> get mask r c <> 0 ->
     c < cols mask - 1) ->
  0 < cols m /\ col_empty m (cols m - 1) = true.
Proof.
  unfold crop_to_foreground; intros Hc Hlast.
  destruct (is_nil (where2 mask)) eqn:Ew; [discriminate |].
  injection Hc as <-.
  assert (Hne : forall f : Z * Z -> Z, map f (where2 mask) <> []).
  { intros f; destruct (where2 mask); discriminate. }
  destruct (list_max_spec 0 _ (Hne snd)) as [Hcin _].
  destruct (list_min_spec 0 _ (Hne snd)) as [Hmin_in Hmin_le].
  destruct (list_min_spec 0 _ (Hne fst)) as [Hrmin_in _].
  set (cmax := list_max 0 (map snd (where2 mask))) in *.
  set (cmin := list_min 0 (map snd (where2 mask))) in *.
  set (rmin := list_min 0 (map fst (where2 mask))) in *.
  set (rmax := list_max 0 (map fst (where2 mask))).
  apply in_map_iff in Hcin as [[r1 c1] [Ec1 Hc1]]; cbn in Ec1; subst c1.
  apply in_where2 in Hc1 as (Hr1 & Hc1 & Hnz1).
  pose proof (Hlast _ _ Hr1 Hc1 Hnz1) as Hlt.
  apply in_map_iff in Hmin_in as [[r2 c2] [Ec2 Hc2]]; cbn in Ec2; subst c2.
  apply in_where2 in Hc2 as (Hr2 & Hc2 & Hnz2).
  apply in_map_iff in Hrmin_in as [[r3 c3] [Er3 Hr3]]; cbn in Er3; subst r3.
  apply in_where2 in Hr3 as (Hr3 & Hc3 & Hnz3).
  assert (Hcm : cmin <= cmax) by (apply Hmin_le, in_map_iff; exists (r1, cmax); split;
                                   [reflexivity | apply in_where2; auto]).
  unfold sub2, slice_bounds; cbn [rows cols get].
  rewrite !(py_norm_nonneg (cols mask)) by lia.
  replace (Z.min cmin (cols mask)) with cmin by lia.
  replace (Z.min (cmin + (cmax - cmin + 1) + 1) (cols mask)) with (cmax + 2) by lia.
  replace (Z.max cmin (cmax + 2) - cmin) with (cmax + 2 - cmin) by lia.
  split; [lia |].
  apply forallb_forall; intros r Hr; apply in_zrange in Hr.
  apply Z.eqb_eq.
  destruct (Z.eq_dec (get mask (r + py_norm (rows mask) rmin)
                           (cmax + 2 - cmin - 1 + cmin)) 0) as [E | E]; [exact E |].
  exfalso.
  revert Hr; rewrite py_norm_nonneg by lia; intros Hr.
  pose proof (py_norm_range (rows mask) (rmin + (rmax - rmin + 1) + 1)) as Hpr.
  assert (Hin : In (cmax + 2 - cmin - 1 + cmin)
                   (map snd (where2 mask))).
  { apply in_map_iff; exists (r + Z.min rmin (rows mask), cmax + 2 - cmin - 1 + cmin).
    split; [reflexivity |]. apply in_where2.
    rewrite py_norm_nonneg in E by lia.
    repeat split; try lia; auto.
    - specialize (Hpr ltac:(lia)); cbn [rows] in Hr; lia. }
  destruct (list_max_spec 0 _ (Hne snd)) as [_ Hle].
  specialize (Hle _ Hin); fold cmax in Hle; lia.
Qed.

(** ** The liquid container rule *)

Lemma py_int_of_Q_zero (x : Q) : x == 0 -> py_int_of_Q x = 0.
Proof.
  unfold py_int_of_Q, Qeq; cbn; intros H; rewrite Z.mul_1_r in H; rewrite H.
  apply Z.quot_0_l; lia.
Qed.

(** At fill level 1 the fill line removes nothing: every cell of the
    eroded cavity receives the liquid's label. *)
Lemma liquid_full_fills_cavity (o : container) (eroded fill : arr2) (r c : Z) :
  lqd_level o == 1 ->
  liquid_cavity o = inr (eroded, fill) ->
  0 <= r < rows (data o) -> 0 <= c < cols (data o) -> get eroded r c <> 0 ->
  get (data (apply_liquid_container_rule o)) r c = lqd_label o.
Proof.
  intros Hl Hcav Hr Hc Hnz.
  unfold apply_liquid_container_rule; rewrite Hcav; cbn [data].
  unfold liquid_cavity in Hcav.
  destruct (sk_binary_erosion _ _) as [e | er] eqn:Eer; [discriminate |].
  destruct (is_nil (map fst (where2 er))); [discriminate |].
  injection Hcav as E1 E2; subst fill; subst er.
  rewrite py_int_of_Q_zero.
  2: { rewrite Hl. ring. }
  assert (HR : rows eroded = rows (data o)).
  { unfold sk_binary_erosion, binary_erosion in Eer.
    destruct (is_nil _); [discriminate |]. injection Eer as <-; reflexivity. }
  unfold assign_where, zero_rows_upto, slice_bounds; cbn [rows cols get].
  rewrite !(py_norm_nonneg (rows eroded) 0), HR, Z.min_l by lia.
  zcase; cbn [andb negb] in *; try lia; reflexivity.
Qed.

(** C6 (level 0).  An unrotated ellipse container with axes [(8, 3)], wall
    thickness 2 and fill level 0: the eroded cavity spans rows 2 to 12, so
    [e_fill = int(1.0 * (12 - 2)) = 10] and [e_fill_img[:10, :] = 0] clears
    image rows 0 to 9 only.  The cavity rows 10, 11 and 12 keep the liquid
    label 9 although the level is 0: the fill line is taken as an absolute
    image row, not as an offset from the cavity's top row [e_row.min()]. *)
Lemma liquid_level_zero_fills_three_rows :
  lqd_level (ellipse_container 8 3 2 0) == 0 /\
  match liquid_cavity (ellipse_container 8 3 2 0) with
  | inl _ => False
  | inr (eroded, _) =>
      list_min 0 (map fst (where2 eroded)) = 2 /\
      list_max 0 (map fst (where2 eroded)) = 12 /\
      get eroded 10 0 = 1 /\ get eroded 11 1 = 1 /\ get eroded 12 2 = 1
  end /\
  get (data (apply_liquid_container_rule (ellipse_container 8 3 2 0))) 10 0 = 9 /\
  get (data (apply_liquid_container_rule (ellipse_container 8 3 2 0))) 11 1 = 9 /\
  get (data (apply_liquid_container_rule (ellipse_container 8 3 2 0))) 12 2 = 9.
Proof.
  vm_compute; repeat split.
Qed.

(** Every failure of the [try] block happens before its first write. *)
Lemma liquid_failure_unmodified (o : container) (e : py_exc) :
  liquid_cavity o = inl e -> apply_liquid_container_rule o = o.
Proof.
  intros H; unfold apply_liquid_container_rule; rewrite H; reflexivity.
Qed.

(** C9.  [apply_liquid_container_rule] is a total function of the
    container (no exception reaches the caller), and when the [try] block
    fails (an empty footprint for [binary_erosion], or an empty cavity
    making [e_row.max()] raise) the container, its raster [data] included,
    is returned unchanged. *)
Theorem apply_liquid_container_rule_failure_keeps_data (o : container) (e : py_exc) :
  liquid_cavity o = inl e ->
  apply_liquid_container_rule o = o /\
  data (apply_liquid_container_rule o) = data o.
Proof.
  intros H; rewrite (liquid_failure_unmodified o e H); split; reflexivity.
Qed.

(** A wall of thickness 6 leaves no cavity in the [(8, 3)] ellipse:
    [e_row.max()] raises and the container is kept. *)
Lemma apply_liquid_container_rule_failure_keeps_data_witness :
  liquid_cavity (ellipse_container 8 3 6 (1#2)) = inl ValueError /\
  apply_liquid_container_rule (ellipse_container 8 3 6 (1#2))
    = ellipse_container 8 3 6 (1#2) /\
  data (apply_liquid_container_rule (ellipse_container 8 3 6 (1#2)))
    = data (ellipse_container 8 3 6 (1#2)).
Proof.
  assert (H : liquid_cavity (ellipse_container 8 3 6 (1#2)) = inl ValueError)
    by (vm_compute; reflexivity).
  split; [exact H |].
  exact (apply_liquid_container_rule_failure_keeps_data _ _ H).
Defined.

(* ------------------------------------------------------------------ *)
(** ** The choice of the overlap segment *)

Lemma sum_filter_eq (x : Z) (l : list Z) :
  sum_list (filter (fun v => v =? x) l) = x * Z.of_nat (length (filter (fun v => v =? x) l)).
Proof.
  induction l as [|h t IH]; cbn; [ring |].
  destruct (h =? x) eqn:E; cbn [length sum_list]; [| exact IH].
  apply Z.eqb_eq in E; subst h; rewrite IH, Nat2Z.inj_succ; ring.
Qed.

Lemma pix_cnt_count (L : arr2) (x : Z) : 0 < x -> pix_cnt L x = label_count L x.
Proof.
  intros Hx; unfold pix_cnt, label_count; rewrite sum_filter_eq.
  rewrite Z.mul_comm; apply Z.div_mul; lia.
Qed.

Lemma argmax_aux_spec (g : nat -> Z) (len : nat) :
  forall i best bv,
    (best < i)%nat -> g best = bv ->
    (forall k, (k < i)%nat -> g k <= bv) ->
    (forall k, (k < best)%nat -> g k < bv) ->
    let j := argmax_aux (map g (seq i len)) i best bv in
    (j < i + len)%nat /\
    (forall k, (k < i + len)%nat -> g k <= g j) /\
    (forall k, (k < j)%nat -> g k < g j).
Proof.
  induction len as [|len IH]; intros i best bv Hb Hg Hle Hlt; cbn.
  - subst bv; rewrite Nat.add_0_r; repeat split; auto.
  - destruct (Z.ltb_spec bv (g i)) as [Hi | Hi].
    + assert (IH' := IH (S i) i (g i) ltac:(lia) eq_refl).
      replace (i + S len)%nat with (S i + len)%nat by lia.
      apply IH'.
      * intros k Hk. destruct (Nat.eq_dec k i); [subst; lia |].
        specialize (Hle k ltac:(lia)); lia.
      * intros k Hk. specialize (Hle k Hk); lia.
    + assert (IH' := IH (S i) best bv ltac:(lia) Hg).
      replace (i + S len)%nat with (S i + len)%nat by lia.
      apply IH'; [| exact Hlt].
      intros k Hk. destruct (Nat.eq_dec k i); [subst; lia |].
      apply Hle; lia.
Qed.

Lemma np_argmax_spec (g : nat -> Z) (n : nat) :
  (0 < n)%nat ->
  exists j, np_argmax (map g (seq 0 n)) = inr (Z.of_nat j) /\
    (j < n)%nat /\
    (forall k, (k < n)%nat -> g k <= g j) /\
    (forall k, (k < j)%nat -> g k < g j).
Proof.
  intros Hn; destruct n as [|n]; [lia |].
  cbn [seq map np_argmax].
  assert (H := argmax_aux_spec g n 1 O (g O) ltac:(lia) eq_refl
                 ltac:(intros k Hk; replace k with 0%nat by lia; lia)
                 ltac:(intros k Hk; lia)).
  cbn zeta in H.
  exists (argmax_aux (map g (seq 1 n)) 1 O (g O)); split; [reflexivity |].
  replace (S n) with (1 + n)%nat by lia; exact H.
Qed.

Lemma zrange_1_map (m : Z) :
  zrange 1 (m + 1) = map (fun k => 1 + Z.of_nat k) (seq 0 (Z.to_nat m)).
Proof. unfold zrange; f_equal; f_equal; lia. Qed.

(** For any labelled image whose largest label [m] is positive, the
    choice keeps the pixels of label [k]: a label of maximal pixel count,
    every smaller label having strictly fewer pixels. *)
Lemma choose_segment_spec (L : arr2) (m : Z) :
  arr_max L = inr m -> 1 <= m ->
  exists k sel, choose_segment L = inr sel /\
    1 <= k <= m /\
    (forall j, 1 <= j <= m -> label_count L j <= label_count L k) /\
    (forall j, 1 <= j < k -> label_count L j < label_count L k) /\
    rows sel = rows L /\ cols sel = cols L /\
    (forall r c, get sel r c = if get L r c =? k then 1 else 0).
Proof.
  intros Hm H1; unfold choose_segment; rewrite Hm.
  rewrite zrange_1_map, map_map.
  destruct (np_argmax_spec (fun k => pix_cnt L (1 + Z.of_nat k)) (Z.to_nat m)
              ltac:(lia)) as (j & Ej & Hj & Hle & Hlt).
  rewrite Ej.
  exists (Z.of_nat j + 1); eexists; split; [reflexivity |].
  split; [lia |]; split; [| split; [| split; [reflexivity | split; [reflexivity |]]]].
  - intros i Hi. specialize (Hle (Z.to_nat (i - 1)) ltac:(lia)).
    rewrite !pix_cnt_count in Hle by lia.
    replace (1 + Z.of_nat (Z.to_nat (i - 1))) with i in Hle by lia.
    replace (Z.of_nat j + 1) with (1 + Z.of_nat j) by lia; exact Hle.
  - intros i Hi. specialize (Hlt (Z.to_nat (i - 1)) ltac:(lia)).
    rewrite !pix_cnt_count in Hlt by lia.
    replace (1 + Z.of_nat (Z.to_nat (i - 1))) with i in Hlt by lia.
    replace (Z.of_nat j + 1) with (1 + Z.of_nat j) by lia; exact Hlt.
  - intros r c; cbn [get].
    destruct (get L r c =? Z.of_nat j + 1) eqn:E; cbn [negb].
    + apply Z.eqb_eq in E; rewrite E; destruct (Z.eqb_spec (Z.of_nat j + 1) 0); [lia | reflexivity].
    + reflexivity.
Qed.

Lemma measure_label_shape (a : arr2) :
  rows (measure_label a) = rows a /\ cols (measure_label a) = cols a.
Proof.
  unfold measure_label, cc_relabel; cbn [rows cols].
  induction (Z.to_nat (rows a * cols a)) as [|n IH]; cbn; [split; reflexivity | exact IH].
Qed.

(** C7.  In [run_shape_grammar_overlap], when the labelled intersection
    [label(obj_int.astype(bool))] has components (largest label [m >= 1]),
    the mask kept is exactly the component of label [k], where component
    [k] has the largest pixel count and every component with a smaller
    label (found earlier in raster order) has strictly fewer pixels: ties
    go to the smallest label.  All other components are cleared. *)
Theorem overlap_keeps_largest_segment (oi : arr2) (m : Z) :
  arr_max (measure_label oi) = inr m -> 1 <= m ->
  exists k sel, choose_segment (measure_label oi) = inr sel /\
    1 <= k <= m /\
    (forall j, 1 <= j <= m ->
       label_count (measure_label oi) j <= label_count (measure_label oi) k) /\
    (forall j, 1 <= j < k ->
       label_count (measure_label oi) j < label_count (measure_label oi) k) /\
    rows sel = rows oi /\ cols sel = cols oi /\
    (forall r c, get sel r c = if get (measure_label oi) r c =? k then 1 else 0).
Proof.
  intros Hm H1.
  destruct (choose_segment_spec (measure_label oi) m Hm H1)
    as (k & sel & E & Hk & Hle & Hlt & Hr & Hc & Hg).
  destruct (measure_label_shape oi) as [Er Ec].
  exists k, sel; repeat split; auto; try lia; congruence.
Qed.

(** Four components of sizes 2, 3, 3 and 1: the two of 3 pixels tie and
    the first one, label 2, is kept. *)
Lemma overlap_keeps_largest_segment_witness :
  arr_max (measure_label (of_rows [[1;1;0;0;1];[0;0;0;1;1];[1;0;0;0;0];[1;1;0;1;0]]))
    = inr 4 /\
  exists k sel,
    choose_segment (measure_label (of_rows [[1;1;0;0;1];[0;0;0;1;1];[1;0;0;0;0];[1;1;0;1;0]]))
      = inr sel /\ 1 <= k <= 4.
Proof.
  assert (Hm : arr_max (measure_label
                 (of_rows [[1;1;0;0;1];[0;0;0;1;1];[1;0;0;0;0];[1;1;0;1;0]])) = inr 4)
    by (vm_compute; reflexivity).
  split; [exact Hm |].
  destruct (overlap_keeps_largest_segment _ 4 Hm ltac:(lia))
    as (k & sel & E & Hk & _).
  exists k, sel; split; [exact E | exact Hk].
Defined.

(* ------------------------------------------------------------------ *)
(** ** Bounds of the placement loops *)

(** Case analysis on every [match] of a hypothesis. *)
Ltac split_matches H :=
  repeat match type of H with
  | context [match ?x with _ => _ end] => destruct x eqn:?
  end.

Lemma overlap_iter_ctr (b : bag) (o : obj2) (s s' : ol_loop) :
  overlap_iter b o s = inr (false, s') ->
  ol_ctr s' = ol_ctr s + 1 /\ ol_ctr s + 1 <> 10.
Proof.
  unfold overlap_iter; intros H; split_matches H; try discriminate.
  inversion H as [[E1 E2]]; cbn [ol_ctr]; split; [reflexivity |].
  apply Z.eqb_neq; exact E1.
Qed.

Lemma overlap_while_enough (b : bag) (o : obj2) :
  forall n s, 0 <= ol_ctr s < 10 -> (Z.to_nat (10 - ol_ctr s) <= n)%nat ->
  overlap_while n b o s = overlap_while (Z.to_nat (10 - ol_ctr s)) b o s /\
  overlap_while n b o s <> None.
Proof.
  induction n as [|n IH]; intros s Hc Hn; [lia |].
  assert (E : Z.to_nat (10 - ol_ctr s) = S (Z.to_nat (10 - (ol_ctr s + 1)))) by lia.
  rewrite E; cbn [overlap_while].
  destruct (negb (OVERLAP_FLAG s)); [split; [reflexivity | discriminate] |].
  destruct (overlap_iter b o s) as [e | [[|] s']] eqn:Ei;
    [split; [reflexivity | discriminate] | split; [reflexivity | discriminate] |].
  destruct (overlap_iter_ctr b o s s' Ei) as [Ec Hne].
  rewrite <- Ec in *.
  apply IH; lia.
Qed.

Lemma run_shape_grammar_overlap_enough (fuel : nat) (b : bag) (h : heap) (o : obj2)
    (fix_obj rsh csh : bool) :
  (10 <= fuel)%nat ->
  run_shape_grammar_overlap_fuel fuel b h o fix_obj rsh csh
    = run_shape_grammar_overlap b h o fix_obj rsh csh /\
  run_shape_grammar_overlap b h o fix_obj rsh csh <> None.
Proof.
  intros Hf; unfold run_shape_grammar_overlap, run_shape_grammar_overlap_fuel.
  destruct (get_overlap b (odata o) (pose_at h (opose o))) as [[|] oi].
  2: { cbv beta iota zeta; split; [reflexivity | destruct fix_obj; discriminate]. }
  destruct (overlap_while_enough b o fuel
              (mk_ol_loop h rsh csh (LATERAL_OSC_FLAG b) [opose o] 0 true oi)
              ltac:(cbn; lia) ltac:(cbn; lia)) as [E1 N1].
  change (Z.to_nat (10 - ol_ctr (mk_ol_loop h rsh csh (LATERAL_OSC_FLAG b)
                                  [opose o] 0 true oi))) with 10%nat in E1.
  rewrite E1 in N1 |- *.
  split; [reflexivity |].
  destruct (overlap_while 10 b o _) as [[e | s]|];
    [discriminate | destruct fix_obj; discriminate | contradiction].
Qed.

Lemma run_shape_grammar_overlap_total (b : bag) (h : heap) (o : obj2) (fix_obj rsh csh : bool) :
  run_shape_grammar_overlap b h o fix_obj rsh csh <> None.
Proof. exact (proj2 (run_shape_grammar_overlap_enough 10 b h o fix_obj rsh csh (le_n _))). Qed.

Lemma settle_while_enough :
  forall n b h o ctr prev_pose ovl osc,
    0 <= ctr <= 10 -> (Z.to_nat (11 - ctr) <= n)%nat ->
    exists r, settle_while n b h o ctr prev_pose ovl osc = Some r /\
      (forall b' h' c' osc', r = inr (b', h', c', osc') -> 0 <= c' <= 10).
Proof.
  induction n as [|n IH]; intros b h o ctr prev_pose ovl osc Hc Hn; [lia |].
  cbn [settle_while].
  destruct ovl; cbn [negb].
  2: { eexists; split; [reflexivity |]. intros * E; injection E as _ _ <- _; lia. }
  destruct (run_shape_grammar_overlap b h o false true true) as [[e | [b1 h1]]|] eqn:Er.
  - eexists; split; [reflexivity | discriminate].
  - destruct (Z.ltb_spec 10 (ctr + 1)).
    + eexists; split; [reflexivity |]. intros * E; injection E as _ _ <- _; lia.
    + apply IH; lia.
  - exfalso; exact (run_shape_grammar_overlap_total b h o false true true Er).
Qed.

Section GravityBounds.

Variable sheet_rule : bag -> heap -> obj2 -> option (py_exc + (bool * (bag * heap * obj2))).
Hypothesis sheet_rule_total : forall b h o, sheet_rule b h o <> None.

Lemma gravity_iter_some (z_inc : Z) (gs : gstate) :
  0 <= g_ol_ctr gs <= 10 ->
  exists r, gravity_iter sheet_rule z_inc gs = Some r /\
    (forall brk gs', r = inr (brk, gs') ->
       drop_ctr gs' = drop_ctr gs + 1 /\ 0 <= g_ol_ctr gs' <= 10).
Proof.
  intros Hc; unfold gravity_iter; cbv zeta.
  destruct (is_sheet (g_obj gs)).
  - destruct (sheet_rule _ _ _) as [[e | [brk [[b' h'] o']]]|] eqn:Es.
    + eexists; split; [reflexivity | discriminate].
    + eexists; split; [reflexivity |]. intros * E; injection E as <- <-; cbn; lia.
    + exfalso; exact (sheet_rule_total _ _ _ Es).
  - destruct (_ <=? _).
    + destruct (fst (get_overlap _ _ _)).
      * destruct (run_shape_grammar_overlap _ _ _ false false true)
          as [[e | [b3 h3]]|] eqn:Er.
        -- eexists; split; [reflexivity | discriminate].
        -- eexists; split; [reflexivity |]. intros * E; injection E as <- <-; cbn; lia.
        -- exfalso; exact (run_shape_grammar_overlap_total _ _ _ _ _ _ Er).
      * eexists; split; [reflexivity |]. intros * E; injection E as <- <-; cbn; lia.
    + destruct (fst (get_overlap _ _ _)).
      * destruct (settle_while_enough 11 (set_lat (set_lat (g_bag gs) false) false)
                    (set_pose (g_heap gs) (opose (g_obj gs))
                       (fst (pose_at (g_heap gs) (opose (g_obj gs))) + z_inc,
                        snd (pose_at (g_heap gs) (opose (g_obj gs)))))
                    (g_obj gs) (g_ol_ctr gs) (pose_at (g_heap gs) (opose (g_obj gs)))
                    true false Hc ltac:(lia)) as (r & Er & Hr).
        rewrite Er.
        destruct r as [e | [[[b4 h4] c4] osc]].
        -- eexists; split; [reflexivity | discriminate].
        -- eexists; split; [reflexivity |]. intros * E; injection E as <- <-; cbn.
           specialize (Hr _ _ _ _ eq_refl); lia.
      * eexists; split; [reflexivity |]. intros * E; injection E as <- <-; cbn; lia.
Qed.

Lemma gravity_while_enough (z_inc : Z) :
  forall n gs, 0 <= drop_ctr gs -> 0 <= g_ol_ctr gs <= 10 ->
  (Z.to_nat (50 - drop_ctr gs) <= n)%nat ->
  gravity_while sheet_rule n z_inc gs
    = gravity_while sheet_rule (Z.to_nat (50 - drop_ctr gs)) z_inc gs /\
  gravity_while sheet_rule n z_inc gs <> None.
Proof.
  induction n as [|n IH]; intros gs Hd Hc Hn.
  - replace (Z.to_nat (50 - drop_ctr gs)) with O by lia.
    cbn [gravity_while]; destruct (Z.ltb_spec (drop_ctr gs) 50); [lia |].
    split; [reflexivity | discriminate].
  - cbn [gravity_while]; destruct (Z.ltb_spec (drop_ctr gs) 50).
    2: { replace (Z.to_nat (50 - drop_ctr gs)) with O by lia; cbn [gravity_while].
         destruct (Z.ltb_spec (drop_ctr gs) 50); [lia |]. split; [reflexivity | discriminate]. }
    replace (Z.to_nat (50 - drop_ctr gs)) with (S (Z.to_nat (50 - (drop_ctr gs + 1)))) by lia.
    cbn [gravity_while]; destruct (Z.ltb_spec (drop_ctr gs) 50); [| lia].
    destruct (gravity_iter_some z_inc gs Hc) as (r & Er & Hr); rewrite Er.
    destruct r as [e | [[|] gs']]; [split; [reflexivity | discriminate] | split; [reflexivity | discriminate] |].
    destruct (Hr _ _ eq_refl) as [Ed Hc'].
    rewrite <- Ed. apply IH; lia.
Qed.

End GravityBounds.

(** C4.  Both placement loops are bounded for every object, canvas and
    pose store.  Each loop spends one unit of fuel per iteration and yields
    [None] only when its fuel runs out.  A fuel of 10 iterations for the
    overlap loop of [run_shape_grammar_overlap], and of 50 outer steps for
    the descent loop of [run_shape_grammar_overlap_and_gravity], is never
    exhausted, and more fuel gives the same result.  So the overlap loop
    runs at most 10 iterations and the descent loop at most 50 outer steps.
    This holds whatever the sheet branch does, provided it returns or
    raises. *)
Theorem placement_loops_bounded
    (sheet_rule : bag -> heap -> obj2 -> option (py_exc + (bool * (bag * heap * obj2))))
    (Hsheet : forall b h o, sheet_rule b h o <> None)
    (fuel_ol fuel_g : nat) (Hol : (10 <= fuel_ol)%nat) (Hg : (50 <= fuel_g)%nat)
    (z_inc : Z) (b : bag) (h : heap) (o : obj2) (fix_obj rsh csh : bool) :
  (run_shape_grammar_overlap_fuel fuel_ol b h o fix_obj rsh csh
     = run_shape_grammar_overlap b h o fix_obj rsh csh /\
   run_shape_grammar_overlap b h o fix_obj rsh csh <> None) /\
  (run_shape_grammar_overlap_and_gravity_fuel sheet_rule fuel_g z_inc b h o
     = run_shape_grammar_overlap_and_gravity sheet_rule z_inc b h o /\
   run_shape_grammar_overlap_and_gravity sheet_rule z_inc b h o <> None).
Proof.
  split; [exact (run_shape_grammar_overlap_enough fuel_ol b h o fix_obj rsh csh Hol) |].
  unfold run_shape_grammar_overlap_and_gravity, run_shape_grammar_overlap_and_gravity_fuel.
  destruct (gravity_while_enough sheet_rule Hsheet z_inc fuel_g (mk_gstate b h o 0 0)
              ltac:(cbn; lia) ltac:(cbn; lia) ltac:(cbn; lia)) as [E N].
  change (Z.to_nat (50 - drop_ctr (mk_gstate b h o 0 0))) with 50%nat in E.
  rewrite E in N |- *; split; [reflexivity |].
  destruct (gravity_while sheet_rule 50 z_inc _) as [[e | gs]|];
    [discriminate | | contradiction].
  destruct (adjust_for_boundaries _ _ _); discriminate.
Qed.

(** A sheet branch that always breaks, and the 1 x 1 object of a bag of
    side 20. *)
Lemma placement_loops_bounded_witness :
  (run_shape_grammar_overlap_fuel 12 (mk_bag (zeros 20 20) (zeros 20 20) 20 8 false)
     [(3, 5)] (mk_obj2 (of_rows [[5]]) (1, 1) O false) true true true
   = run_shape_grammar_overlap (mk_bag (zeros 20 20) (zeros 20 20) 20 8 false)
     [(3, 5)] (mk_obj2 (of_rows [[5]]) (1, 1) O false) true true true /\
   run_shape_grammar_overlap (mk_bag (zeros 20 20) (zeros 20 20) 20 8 false)
     [(3, 5)] (mk_obj2 (of_rows [[5]]) (1, 1) O false) true true true <> None) /\
  (run_shape_grammar_overlap_and_gravity_fuel (fun b h o => Some (inr (true, (b, h, o))))
     60 50 (mk_bag (zeros 20 20) (zeros 20 20) 20 8 false)
     [(3, 5)] (mk_obj2 (of_rows [[5]]) (1, 1) O false)
   = run_shape_grammar_overlap_and_gravity (fun b h o => Some (inr (true, (b, h, o))))
     50 (mk_bag (zeros 20 20) (zeros 20 20) 20 8 false)
     [(3, 5)] (mk_obj2 (of_rows [[5]]) (1, 1) O false) /\
   run_shape_grammar_overlap_and_gravity (fun b h o => Some (inr (true, (b, h, o))))
     50 (mk_bag (zeros 20 20) (zeros 20 20) 20 8 false)
     [(3, 5)] (mk_obj2 (of_rows [[5]]) (1, 1) O false) <> None).
Proof.
  apply (placement_loops_bounded (fun b h o => Some (inr (true, (b, h, o))))).
  - intros b h o; discriminate.
  - lia.
  - lia.
Defined.

(** C3 (code bug).  [pose_list] holds references to the one pose array
    [bag_obj.pose], which the loop mutates in place, so [pose_list[-2]] is
    always the current pose and [osc_cond] holds at every iteration with
    [ol_ctr >= 2].  On [osc_bag] the object is pushed right one column per
    iteration, through the poses (1, 0), (1, 1), (1, 2), (1, 3), none of
    them repeated.  Yet the third iteration finds [osc_cond] true: it
    applies the escape shift to (0, 3), disables both shifts and sets
    [LATERAL_OSC_FLAG]. *)
Lemma lateral_osc_flag_without_revisit :
  (match overlap_iter osc_bag osc_obj osc_start with
   | inr (false, s1) =>
       pose_at (ol_heap s1) O = (1, 1) /\ lat_flag s1 = false /\
       match overlap_iter osc_bag osc_obj s1 with
       | inr (false, s2) =>
           pose_at (ol_heap s2) O = (1, 2) /\ lat_flag s2 = false /\
           match overlap_iter osc_bag osc_obj s2 with
           | inr (false, s3) =>
               pose_list s3 = [O; O; O; O] /\
               pose_at (ol_heap s3) O = (0, 3) /\
               lat_flag s3 = true /\ row_shift s3 = false /\ col_shift s3 = false /\
               OVERLAP_FLAG s3 = false
           | _ => False
           end
       | _ => False
       end
   | _ => False
   end) /\
  (match run_shape_grammar_overlap osc_bag [(1, 0)] osc_obj true true true with
   | Some (inr (b', h')) => LATERAL_OSC_FLAG b' = true /\ h' = [(0, 3)]
   | _ => False
   end).
Proof. vm_compute; repeat split. Qed.

(* ------------------------------------------------------------------ *)
(** ** Descent into an empty bag *)

Lemma pose_at_set_same (h : heap) (p : nat) (v : Z * Z) :
  (p < length h)%nat -> pose_at (set_pose h p v) p = v.
Proof.
  intros Hp; unfold pose_at, set_pose.
  rewrite app_nth2; rewrite length_firstn; [| lia].
  replace (p - Init.Nat.min p (length h))%nat with O by lia; reflexivity.
Qed.

Lemma set_pose_length (h : heap) (p : nat) (v : Z * Z) :
  (p < length h)%nat -> length (set_pose h p v) = length h.
Proof.
  intros Hp; unfold set_pose; rewrite length_app, length_firstn; cbn [length].
  rewrite length_skipn; lia.
Qed.

Lemma where2_nil (a : arr2) :
  (forall r c, 0 <= r < rows a -> 0 <= c < cols a -> get a r c = 0) -> where2 a = [].
Proof.
  intros H; destruct (where2 a) as [|[r c] t] eqn:E; [reflexivity | exfalso].
  assert (Hin : In (r, c) (where2 a)) by (rewrite E; left; reflexivity).
  apply in_where2 in Hin as (Hr & Hc & Hnz); exact (Hnz (H r c Hr Hc)).
Qed.

Lemma slice_bounds_range (n s e : Z) :
  0 <= n -> 0 <= fst (slice_bounds n s e) <= snd (slice_bounds n s e) /\
            snd (slice_bounds n s e) <= n.
Proof.
  intros Hn; unfold slice_bounds; cbn [fst snd].
  pose proof (py_norm_range n s Hn); pose proof (py_norm_range n e Hn); lia.
Qed.

(** With no occupied cell off the bag boundary, [get_overlap] finds no
    overlap at any pose. *)
Lemma get_overlap_empty (b : bag) (od : arr2) (pose : Z * Z) :
  0 <= rows (ws_bag b) -> 0 <= cols (ws_bag b) ->
  (forall r c, 0 <= r < rows (ws_bag b) -> 0 <= c < cols (ws_bag b) ->
     get (ws_bag b) r c <> 0 -> get (boundary b) r c <> 0) ->
  fst (get_overlap b od pose) = false.
Proof.
  intros Hr Hc Hempty; destruct pose as [p0 p1]; unfold get_overlap, sub2.
  change (rows (assign_where (ws_bag b) (boundary b) 0)) with (rows (ws_bag b)).
  change (cols (assign_where (ws_bag b) (boundary b) 0)) with (cols (ws_bag b)).
  destruct (slice_bounds (rows (ws_bag b)) p0 (p0 + rows od)) as [rs re] eqn:Er.
  destruct (slice_bounds (cols (ws_bag b)) p1 (p1 + cols od)) as [cs ce] eqn:Ec.
  cbn [fst]; rewrite where2_nil; [reflexivity |].
  intros r c Hr' Hc'; cbn [get rows cols] in *.
  pose proof (slice_bounds_range (rows (ws_bag b)) p0 (p0 + rows od) Hr) as R.
  pose proof (slice_bounds_range (cols (ws_bag b)) p1 (p1 + cols od) Hc) as C.
  rewrite Er in R; rewrite Ec in C; cbn [fst snd] in R, C.
  assert (Z0 : get (assign_where (ws_bag b) (boundary b) 0) (r + rs) (c + cs) = 0).
  { unfold assign_where; cbn [get].
    rewrite (proj2 (Z.leb_le 0 (r + rs))), (proj2 (Z.ltb_lt (r + rs) (rows (ws_bag b)))),
      (proj2 (Z.leb_le 0 (c + cs))), (proj2 (Z.ltb_lt (c + cs) (cols (ws_bag b)))) by lia.
    destruct (Z.eqb_spec (get (ws_bag b) (r + rs) (c + cs)) 0) as [E0 | E0].
    - destruct (negb _); cbn; [reflexivity | exact E0].
    - rewrite (proj2 (Z.eqb_neq _ 0) (Hempty (r + rs) (c + cs) ltac:(lia) ltac:(lia) E0)).
      reflexivity. }
  rewrite Z0; cbn; ring.
Qed.

Section Descent.

Variable sheet_rule : bag -> heap -> obj2 -> option (py_exc + (bool * (bag * heap * obj2))).
Variables (z_inc : Z) (b : bag) (o : obj2) (p0 p1 k : Z).
Hypothesis Hsheet : is_sheet o = false.
Hypothesis Hrows : 0 <= rows (ws_bag b).
Hypothesis Hcols : 0 <= cols (ws_bag b).
Hypothesis Hempty : forall r c, 0 <= r < rows (ws_bag b) -> 0 <= c < cols (ws_bag b) ->
  get (ws_bag b) r c <> 0 -> get (boundary b) r c <> 0.
Hypothesis Hk : 1 <= k <= 50.
Hypothesis Hcross : ground_y b <= p0 + k * z_inc + fst (odim o).
Hypothesis Hbefore : forall j, 1 <= j < k -> p0 + j * z_inc + fst (odim o) < ground_y b.

Lemma descent :
  forall n j bj hj, 0 <= j < k -> (Z.to_nat (k - j) <= n)%nat ->
    ws_bag bj = ws_bag b -> boundary bj = boundary b ->
    size bj = size b -> bb_h bj = bb_h b ->
    (opose o < length hj)%nat -> pose_at hj (opose o) = (p0 + j * z_inc, p1) ->
    exists bk hk,
      gravity_while sheet_rule n z_inc (mk_gstate bj hj o 0 j)
        = Some (inr (mk_gstate bk hk o 0 k)) /\
      ws_bag bk = ws_bag b /\ boundary bk = boundary b /\
      size bk = size b /\ bb_h bk = bb_h b /\
      (opose o < length hk)%nat /\
      pose_at hk (opose o) = (ground_y b - fst (odim o), p1).
Proof.
  induction n as [|n IH]; intros j bj hj Hj Hn Ews Ebd Esz Ebb Hlen Hpj; [lia |].
  cbn [gravity_while drop_ctr].
  rewrite (proj2 (Z.ltb_lt j 50)) by lia.
  unfold gravity_iter; cbv zeta; cbn [g_bag g_heap g_obj g_ol_ctr drop_ctr].
  rewrite Hsheet, Hpj; cbn [fst snd].
  rewrite pose_at_set_same by exact Hlen; cbn [fst snd].
  assert (Egy : ground_y (set_lat bj false) = ground_y b)
    by (unfold ground_y; cbn [size bb_h set_lat]; rewrite Esz, Ebb; reflexivity).
  assert (Hov : forall od pose, fst (get_overlap (set_lat bj false) od pose) = false).
  { intros od pose; apply get_overlap_empty; cbn [ws_bag boundary set_lat];
      rewrite ?Ews, ?Ebd; auto. }
  rewrite Egy.
  destruct (Z.eq_dec (j + 1) k) as [Ek | Ek].
  - assert (Hg : ground_y b <= p0 + j * z_inc + z_inc + fst (odim o)).
    { replace (p0 + j * z_inc + z_inc) with (p0 + k * z_inc) by (rewrite <- Ek; ring).
      exact Hcross. }
    rewrite (proj2 (Z.leb_le _ _) Hg), Hov.
    eexists _, _; split; [f_equal; f_equal; f_equal; exact Ek |].
    cbn [ws_bag boundary size bb_h set_lat].
    repeat split; auto.
    + rewrite set_pose_length; rewrite ?set_pose_length; auto.
    + rewrite pose_at_set_same by (rewrite set_pose_length; auto).
      f_equal; ring.
  - assert (Hg : p0 + j * z_inc + z_inc + fst (odim o) < ground_y b).
    { replace (p0 + j * z_inc + z_inc) with (p0 + (j + 1) * z_inc) by ring.
      apply Hbefore; lia. }
    rewrite (proj2 (Z.leb_gt _ _) Hg), Hov; cbn [orb LATERAL_OSC_FLAG set_lat].
    apply IH; try lia; cbn [ws_bag boundary size bb_h set_lat]; auto.
    + rewrite set_pose_length; auto.
    + rewrite pose_at_set_same by exact Hlen; f_equal; ring.
Qed.

End Descent.

Lemma sub2_rows_nonneg (a : arr2) (r0 r1 c0 c1 : Z) :
  0 <= rows (sub2 a r0 r1 c0 c1) /\ 0 <= cols (sub2 a r0 r1 c0 c1).
Proof. unfold sub2, slice_bounds; cbn; lia. Qed.

Lemma sub2_rows_full (a : arr2) (c0 c1 : Z) :
  0 <= rows a -> rows (sub2 a 0 (rows a) c0 c1) = rows a.
Proof.
  intros H; unfold sub2, slice_bounds; cbn [rows].
  rewrite !py_norm_nonneg by lia; lia.
Qed.

Lemma sub2_rows_prefix (a : arr2) (d c0 c1 : Z) :
  0 <= d <= rows a -> rows (sub2 a 0 d c0 c1) = d.
Proof.
  intros H; unfold sub2, slice_bounds; cbn [rows].
  rewrite !py_norm_nonneg by lia; lia.
Qed.

Lemma sub2_rows_suffix (a : arr2) (d c0 c1 : Z) :
  0 < d <= rows a -> rows (sub2 a (- d) (rows a) c0 c1) = d.
Proof.
  intros H; unfold sub2, slice_bounds, py_norm; cbn [rows].
  destruct (Z.ltb_spec (- d) 0), (Z.ltb_spec (rows a) 0); lia.
Qed.

Lemma adjust_on_floor (b : bag) (h : heap) (o : obj2) :
  0 < bb_h b -> bb_h b <= size b / 2 -> (opose o < length h)%nat ->
  fst (odim o) = rows (odata o) -> 0 <= rows (odata o) -> 0 <= cols (odata o) ->
  fst (pose_at h (opose o)) + fst (odim o) = ground_y b ->
  fst (pose_at (fst (adjust_for_boundaries b h o)) (opose o))
    + fst (odim (snd (adjust_for_boundaries b h o))) = ground_y b /\
  rows (odata (snd (adjust_for_boundaries b h o))) = fst (odim (snd (adjust_for_boundaries b h o))) /\
  0 <= fst (pose_at (fst (adjust_for_boundaries b h o)) (opose o)) /\
  0 <= snd (pose_at (fst (adjust_for_boundaries b h o)) (opose o)) /\
  0 <= rows (odata (snd (adjust_for_boundaries b h o))) /\
  0 <= cols (odata (snd (adjust_for_boundaries b h o))) /\
  opose (snd (adjust_for_boundaries b h o)) = opose o.
Proof.
  intros Hb Hs Hl Hd Hr Hc Hp.
  unfold adjust_for_boundaries, ground_y in *.
  destruct (pose_at h (opose o)) as [q0 q1] eqn:Eq; cbn [fst snd] in Hp.
  destruct (Z.leb_spec q0 (size b / 2 - bb_h b)).
  - assert (Ra : rows (sub2 (odata o) (- (fst (odim o) - (size b / 2 - bb_h b - q0)))
                   (rows (odata o)) 0 (cols (odata o)))
                 = fst (odim o) - (size b / 2 - bb_h b - q0))
      by (apply sub2_rows_suffix; lia).
    cbv beta iota zeta.
    rewrite pose_at_set_same by exact Hl; cbn [fst snd].
    rewrite (proj2 (Z.leb_le _ _)) by lia; cbv beta iota zeta.
    destruct (Z.leb_spec q1 (size b / 2 - bb_h b)); cbv beta iota zeta;
      rewrite ?pose_at_set_same by (rewrite ?set_pose_length; exact Hl); cbn [fst snd];
      match goal with |- context [if ?x <=? ?y then _ else _] => destruct (Z.leb_spec x y) end;
      cbn [fst snd odim odata opose];
      rewrite ?pose_at_set_same by (rewrite ?set_pose_length; exact Hl); cbn [fst snd];
      repeat split; try lia;
      repeat rewrite sub2_rows_full by (first [apply sub2_rows_nonneg | lia]);
      try rewrite sub2_rows_prefix by lia; try apply sub2_rows_nonneg; lia.
  - rewrite ?Eq; cbv beta iota zeta; cbn [fst snd].
    rewrite (proj2 (Z.leb_le (size b / 2 + bb_h b) (q0 + fst (odim o)))) by lia;
      cbv beta iota zeta.
    destruct (Z.leb_spec q1 (size b / 2 - bb_h b)); cbv beta iota zeta;
      rewrite ?pose_at_set_same by exact Hl; cbn [fst snd];
      match goal with |- context [if ?x <=? ?y then _ else _] => destruct (Z.leb_spec x y) end;
      cbn [fst snd odim odata opose];
      rewrite ?pose_at_set_same, ?Eq by exact Hl; cbn [fst snd];
      repeat split; try lia;
      repeat rewrite sub2_rows_full by (first [apply sub2_rows_nonneg | lia]);
      try rewrite sub2_rows_prefix by lia; try apply sub2_rows_nonneg; lia.
Qed.

(** ** C5 (counterexample): the descent is capped at 50 drops of [z_inc].
    With the default [z_inc = 50], a 1 x 1 object posed at row 51 in an
    empty bag of [size = 2700], [bb_h = 1300] (floor row 2650) is committed
    at row 2551 after the 50 drops, far above the floor. *)
Lemma gravity_cap_stops_above_floor :
  match run_shape_grammar_overlap_and_gravity
          (fun (b0 : bag) (h0 : heap) (o0 : obj2) => Some (inr (true, (b0, h0, o0)))) 50
          (mk_bag (zeros 2700 2700) (zeros 2700 2700) 2700 1300 false) [(51, 1350)]
          (mk_obj2 (of_rows [[5]]) (1, 1) O false) with
  | Some (inr (b', h', o')) =>
      pose_at h' O = (2551, 1350) /\
      fst (pose_at h' O) + fst (odim o') < 2650 /\
      ground_y (mk_bag (zeros 2700 2700) (zeros 2700 2700) 2700 1300 false) = 2650 /\
      get (ws_bag b') 2551 1350 = 5
  | _ => False
  end.
Proof. vm_compute; repeat split; discriminate. Qed.

(** ** C5 (amended): a non-sheet object dropped into an empty container
    (occupied cells only on the boundary) whose pose crosses the floor at
    the [k]-th drop, [k <= 50], is clamped to the floor: after
    [_adjust_for_boundaries] its pose satisfies [pose[0] + dim[0] = ground_y]
    with [dim[0]] the number of mask rows, and the commit changes no cell at
    or below the ground row. *)
Theorem gravity_floor_clamp_exact
    (sheet_rule : bag -> heap -> obj2 -> option (py_exc + (bool * (bag * heap * obj2))))
    (z_inc : Z) (b : bag) (h : heap) (o : obj2) (p0 p1 k : Z) :
  is_sheet o = false ->
  fst (odim o) = rows (odata o) -> 0 <= rows (odata o) -> 0 <= cols (odata o) ->
  0 <= rows (ws_bag b) -> 0 <= cols (ws_bag b) ->
  (forall r c, 0 <= r < rows (ws_bag b) -> 0 <= c < cols (ws_bag b) ->
     get (ws_bag b) r c <> 0 -> get (boundary b) r c <> 0) ->
  0 < bb_h b -> bb_h b <= size b / 2 ->
  (opose o < length h)%nat -> pose_at h (opose o) = (p0, p1) ->
  1 <= k <= 50 -> ground_y b <= p0 + k * z_inc + fst (odim o) ->
  (forall j, 1 <= j < k -> p0 + j * z_inc + fst (odim o) < ground_y b) ->
  exists b' h' o',
    run_shape_grammar_overlap_and_gravity sheet_rule z_inc b h o = Some (inr (b', h', o')) /\
    fst (pose_at h' (opose o')) + fst (odim o') = ground_y b /\
    rows (odata o') = fst (odim o') /\
    forall r c, get (ws_bag b') r c <> get (ws_bag b) r c -> r < ground_y b.
Proof.
  intros Hs Hd Hr Hc HR HC He Hb Hbb Hl Hp Hk Hcr Hbf.
  destruct (descent sheet_rule z_inc b o p0 p1 k Hs HR HC He Hk Hcr Hbf 50 0 b h)
    as (bk & hk & Eg & Ews & Ebd & Esz & Ebb & Hlk & Hpk);
    try lia; auto.
  { rewrite Z.mul_0_l, Z.add_0_r; exact Hp. }
  unfold run_shape_grammar_overlap_and_gravity, run_shape_grammar_overlap_and_gravity_fuel.
  rewrite Eg; cbn [g_bag g_heap g_obj].
  assert (Hgy : ground_y bk = ground_y b) by (unfold ground_y; rewrite Esz, Ebb; reflexivity).
  destruct (adjust_on_floor bk hk o) as (F1 & F2 & F3 & F4 & F5r & F5 & F6);
    try rewrite ?Esz, ?Ebb; auto.
  { rewrite Hpk, Hgy; cbn [fst]; ring. }
  destruct (adjust_for_boundaries bk hk o) as [h' o'] eqn:Ea; cbn [fst snd] in *.
  rewrite Hgy in F1.
  do 3 eexists; split; [reflexivity |]; split; [rewrite F6; exact F1 | split; [exact F2 |]].
  intros r c Hne; cbn [ws_bag set_ws] in Hne; rewrite Ews, F6 in Hne.
  destruct (pose_at h' (opose o)) as [q0 q1] eqn:Eq.
  cbn [fst snd] in *.
  pose proof (place_changed (ws_bag b) (odata o') (q0, q1) r c HR HC) as Hch.
  destruct Hch as (Hr' & Hc' & _); try lia; auto.
  rewrite (place_get_nonneg (ws_bag b) (odata o') q0 q1 r c) in Hne by lia.
  destruct ((q0 <=? r) && (r <? q0 + rows (odata o')) && (q1 <=? c) && (c <? q1 + cols (odata o'))
            && negb (get (odata o') (r - q0) (c - q1) =? 0)) eqn:Ec; [| congruence].
  apply andb_prop in Ec as [Ec _]; apply andb_prop in Ec as [Ec _];
  apply andb_prop in Ec as [Ec _]; apply andb_prop in Ec as [_ Ec].
  apply Z.ltb_lt in Ec; lia.
Qed.

Lemma gravity_floor_clamp_exact_witness :
  exists b' h' o',
    run_shape_grammar_overlap_and_gravity
      (fun (b0 : bag) (h0 : heap) (o0 : obj2) => Some (inr (true, (b0, h0, o0)))) 50
      (mk_bag (zeros 20 20) (zeros 20 20) 20 8 false) [(3, 5)]
      (mk_obj2 (of_rows [[1; 1; 1]; [0; 0; 0]]) (2, 3) O false) = Some (inr (b', h', o')) /\
    fst (pose_at h' (opose o')) + fst (odim o') =
      ground_y (mk_bag (zeros 20 20) (zeros 20 20) 20 8 false) /\
    rows (odata o') = fst (odim o') /\
    forall r c, get (ws_bag b') r c <> get (ws_bag (mk_bag (zeros 20 20) (zeros 20 20) 20 8 false)) r c ->
      r < ground_y (mk_bag (zeros 20 20) (zeros 20 20) 20 8 false).
Proof.
  apply (gravity_floor_clamp_exact _ 50 _ [(3, 5)] _ 3 5 1);
    try (vm_compute; reflexivity); try (vm_compute; discriminate); try lia;
    try (cbn; lia).
  all: first [intros r c _ _ H; exfalso; apply H; reflexivity | intros j Hj; lia].
Defined.

Lemma quot2_bounds (a : Z) : 0 <= a -> 2 * Z.quot a 2 <= a <= 2 * Z.quot a 2 + 1.
Proof.
  intros H; rewrite Z.quot_div_nonneg by lia.
  pose proof (Z.div_mod a 2 ltac:(lia)); pose proof (Z.mod_pos_bound a 2 ltac:(lia)); lia.
Qed.

Lemma argmin_abs_some (l : list Z) (t r : Z) :
  argmin_abs l t = Some r -> In r l /\ forall z, In z l -> Z.abs (r - t) <= Z.abs (z - t).
Proof.
  revert r; induction l as [|z l IH]; intros r H; cbn in H; [discriminate |].
  destruct (argmin_abs l t) as [w|] eqn:E; cbn in H.
  - destruct (IH w eq_refl) as [Hw Hmin].
    revert H; destruct (Z.ltb_spec (Z.abs (w - t)) (Z.abs (z - t))) as [Hlt|Hlt]; intros H; injection H as <-;
      (split; [cbn; tauto | intros z' [<- | Hz']; [lia | specialize (Hmin z' Hz'); lia]]).
  - injection H as <-; destruct l as [|z1 l]; [| cbn in E; destruct (argmin_abs l t);
      [destruct (_ <? _) |]; discriminate].
    split; [left; reflexivity | intros z' [<- | []]; lia].
Qed.

Lemma relocate_mid_spec (ws : arr2) (p q m : Z * Z) :
  relocate_mid ws p q = Some m ->
  snd m = Z.quot (snd p + snd q) 2 /\ 0 <= fst m < rows ws /\ get ws (fst m) (snd m) = 0 /\
  forall z, 0 <= z < rows ws -> get ws z (snd m) = 0 ->
    Z.abs (fst m - Z.quot (fst p + fst q) 2) <= Z.abs (z - Z.quot (fst p + fst q) 2).
Proof.
  unfold relocate_mid; intros H.
  destruct (argmin_abs _ _) as [r|] eqn:E; [injection H as <- | discriminate]; cbn [fst snd].
  destruct (argmin_abs_some _ _ _ E) as [Hr Hmin].
  unfold row_zeros in Hr; apply filter_In in Hr as [Hr Hz]; apply in_zrange in Hr.
  apply Z.eqb_eq in Hz.
  repeat split; try lia; auto.
  intros z Hz' Hg; apply Hmin; unfold row_zeros; apply filter_In;
    rewrite in_zrange, Hg; split; [lia | reflexivity].
Qed.

Lemma occ_range (ws : arr2) (x : Z * Z) : 0 <= occ ws x <= 1.
Proof. unfold occ; destruct (_ =? 0); lia. Qed.

Lemma mid_measure_sym (ws : arr2) (p q : Z * Z) : mid_measure ws p q = mid_measure ws q p.
Proof.
  pose proof (occ_range ws p); pose proof (occ_range ws q).
  destruct p as [rp cp], q as [rq cq]; unfold mid_measure, gtb01; cbn [fst snd].
  replace (Z.abs (cq - cp)) with (Z.abs (cp - cq)) by lia.
  replace (Z.abs (rq - rp)) with (Z.abs (rp - rq)) by lia.
  rewrite (Z.add_comm (occ ws (rq, cq))).
  zcase; lia.
Qed.

Lemma relocate_mid_sym (ws : arr2) (p q : Z * Z) : relocate_mid ws p q = relocate_mid ws q p.
Proof. unfold relocate_mid; rewrite (Z.add_comm (snd p)), (Z.add_comm (fst p)); reflexivity. Qed.

Lemma gtb01_range (a b : Z) : 0 <= gtb01 a b <= 1.
Proof. unfold gtb01; destruct (_ <? _); lia. Qed.

(** Moving the end point [y] (a background cell of the midpoint's column)
    to a nearer background cell [m] of that column decreases twice the
    row distance to the other end point [x], plus the direction bit. *)
Lemma nearest_decrease (x y m t : Z) :
  0 <= x -> 0 <= y -> 0 <= m -> 2 * t <= x + y <= 2 * t + 1 ->
  Z.abs (m - t) <= Z.abs (y - t) -> m <> y ->
  2 * Z.abs (x - m) + gtb01 m x < 2 * Z.abs (x - y) + gtb01 y x.
Proof. unfold gtb01; intros; destruct (x <? m) eqn:?, (x <? y) eqn:?; zcase; lia. Qed.

(** Between two background end points of one column, the nearest
    background cell to the midpoint lies strictly between them. *)
Lemma nearest_inside (x y m t : Z) :
  2 * t <= x + y <= 2 * t + 1 ->
  Z.abs (m - t) <= Z.abs (x - t) -> Z.abs (m - t) <= Z.abs (y - t) -> m <> x -> m <> y ->
  Z.abs (x - m) < Z.abs (x - y).
Proof. lia. Qed.

Lemma occ01 (ws : arr2) (x : Z * Z) : occ ws x = 0 \/ occ ws x = 1.
Proof. unfold occ; destruct (_ =? 0); auto. Qed.

Lemma mid_measure_vert (ws : arr2) (p q : Z * Z) :
  snd p = snd q -> in_canvas ws p -> in_canvas ws q ->
  0 <= mid_measure ws p q < 6 * rows ws.
Proof.
  unfold in_canvas, mid_measure; intros E Hp Hq.
  rewrite E, Z.sub_diag; cbn [Z.abs Z.eqb].
  pose proof (gtb01_range (fst p) (fst q)); pose proof (gtb01_range (fst q) (fst p)).
  destruct (occ01 ws p) as [Ep|Ep], (occ01 ws q) as [Eq|Eq]; rewrite Ep, Eq;
    cbn [Z.add Pos.add Z.eqb Pos.eqb]; lia.
Qed.

Lemma mid_measure_one (ws : arr2) (p q : Z * Z) :
  Z.abs (snd p - snd q) = 1 -> in_canvas ws p -> in_canvas ws q ->
  6 * rows ws <= mid_measure ws p q < 12 * rows ws.
Proof.
  unfold in_canvas, mid_measure; intros E Hp Hq.
  rewrite E; cbn [Z.eqb Pos.eqb].
  pose proof (gtb01_range (fst (if snd p <? snd q then p else q)) (fst (if snd p <? snd q then q else p))).
  destruct (occ01 ws (if snd p <? snd q then p else q)) as [Ey|Ey]; rewrite Ey;
    destruct (snd p <? snd q); lia.
Qed.

Lemma mid_measure_far (ws : arr2) (p q : Z * Z) :
  2 <= Z.abs (snd p - snd q) -> mid_measure ws p q = Z.abs (snd p - snd q) * (6 * rows ws).
Proof.
  intros E; unfold mid_measure.
  rewrite (proj2 (Z.eqb_neq _ 0)), (proj2 (Z.eqb_neq _ 1)) by lia; reflexivity.
Qed.

(** The decrease of the measure towards the first sub-segment. *)
Lemma mid_measure_child (ws : arr2) (p q m : Z * Z) :
  in_canvas ws p -> in_canvas ws q -> relocate_mid ws p q = Some m ->
  pt_eqb m p = false -> pt_eqb m q = false ->
  in_canvas ws m /\ 0 <= mid_measure ws p m < mid_measure ws p q.
Proof.
  intros Hp Hq Hm Hmp Hmq.
  destruct (relocate_mid_spec ws p q m Hm) as (Hmc & Hr & Hz & Hmin).
  assert (Hom : occ ws m = 0) by (unfold occ; rewrite Hz; reflexivity).
  assert (Hnp : occ ws p = 0 -> snd p = snd m ->
    Z.abs (fst m - Z.quot (fst p + fst q) 2) <= Z.abs (fst p - Z.quot (fst p + fst q) 2)).
  { unfold occ; intros E Es; apply Hmin; [apply Hp | rewrite <- Es].
    destruct (Z.eqb_spec (get ws (fst p) (snd p)) 0); [auto | discriminate]. }
  assert (Hnq : occ ws q = 0 -> snd q = snd m ->
    Z.abs (fst m - Z.quot (fst p + fst q) 2) <= Z.abs (fst q - Z.quot (fst p + fst q) 2)).
  { unfold occ; intros E Es; apply Hmin; [apply Hq | rewrite <- Es].
    destruct (Z.eqb_spec (get ws (fst q) (snd q)) 0); [auto | discriminate]. }
  assert (Hcm : in_canvas ws m).
  { unfold in_canvas in *; pose proof (quot2_bounds (snd p + snd q) ltac:(lia)); lia. }
  split; [exact Hcm |].
  pose proof (quot2_bounds (snd p + snd q) ltac:(unfold in_canvas in *; lia)) as Hq2.
  rewrite <- Hmc in Hq2; clear Hmc Hm.
  pose proof (quot2_bounds (fst p + fst q) ltac:(unfold in_canvas in *; lia)) as Ht.
  set (t := Z.quot (fst p + fst q) 2) in *.
  unfold pt_eqb in Hmp, Hmq.
  destruct (Z.le_gt_cases 2 (Z.abs (snd p - snd q))) as [Hfar | Hnear].
  - rewrite (mid_measure_far ws p q Hfar).
    assert (Hdc : Z.abs (snd p - snd m) <= Z.abs (snd p - snd q) - 1) by lia.
    assert (Hmul : (Z.abs (snd p - snd m) + 1) * (6 * rows ws) <= Z.abs (snd p - snd q) * (6 * rows ws))
      by (apply Z.mul_le_mono_nonneg_r; unfold in_canvas in *; lia).
    destruct (Z.le_gt_cases 2 (Z.abs (snd p - snd m))) as [Hf' | Hn'].
    + rewrite (mid_measure_far ws p m Hf').
      rewrite Z.mul_add_distr_r, Z.mul_1_l in Hmul.
      pose proof (Z.mul_nonneg_nonneg (Z.abs (snd p - snd m)) (6 * rows ws) ltac:(lia)
        ltac:(unfold in_canvas in *; lia)).
      unfold in_canvas in *; lia.
    + destruct (Z.eq_dec (Z.abs (snd p - snd m)) 1) as [E1 | E1].
      * pose proof (mid_measure_one ws p m E1 Hp Hcm); lia.
      * pose proof (mid_measure_vert ws p m ltac:(lia) Hp Hcm); lia.
  - unfold in_canvas in *.
    destruct p as [rp cp], q as [rq cq], m as [rm mc]; cbn [fst snd] in *.
    destruct (Z.eq_dec cp cq) as [Ec | Ec].
    + subst cq. assert (mc = cp) by lia; subst mc.
      rewrite Z.eqb_refl, !andb_true_r in *.
      destruct (Z.eqb_spec rm rp) as [|Hrp]; [discriminate |].
      destruct (Z.eqb_spec rm rq) as [|Hrq]; [discriminate |].
      unfold mid_measure; cbn [fst snd]; rewrite Z.sub_diag, Hom; cbn [Z.abs Z.eqb].
      pose proof (gtb01_range rm rp); pose proof (gtb01_range rq rp); pose proof (gtb01_range rp rq).
      destruct (occ01 ws (rp, cp)) as [Ep|Ep], (occ01 ws (rq, cp)) as [Eq|Eq]; rewrite Ep, Eq in *;
        cbn [Z.add Pos.add Z.eqb Pos.eqb].
      * pose proof (nearest_inside rp rq rm t Ht (Hnp eq_refl eq_refl) (Hnq eq_refl eq_refl) Hrp Hrq); lia.
      * lia.
      * pose proof (nearest_decrease rp rq rm t ltac:(lia) ltac:(lia) ltac:(lia) Ht
          (Hnq eq_refl eq_refl) Hrq); lia.
      * lia.
    + assert (E1 : Z.abs (cp - cq) = 1) by lia.
      destruct (Z.ltb_spec cp cq).
      * assert (mc = cp) by lia; subst mc.
        assert (Hv : 0 <= mid_measure ws (rp, cp) (rm, cp) < 6 * rows ws)
          by (apply mid_measure_vert; unfold in_canvas; cbn; lia).
        pose proof (mid_measure_one ws (rp, cp) (rq, cq) E1
          ltac:(unfold in_canvas; cbn; lia) ltac:(unfold in_canvas; cbn; lia)).
        lia.
      * assert (mc = cq) by lia; subst mc.
        rewrite Z.eqb_refl, andb_true_r in Hmq.
        destruct (Z.eqb_spec rm rq) as [|Hrq]; [discriminate |].
        unfold mid_measure; cbn [fst snd].
        rewrite E1; cbn [Z.eqb Pos.eqb].
        rewrite (proj2 (Z.ltb_ge cp cq)) by lia.
        cbn [fst snd]; rewrite Hom.
        destruct (occ01 ws (rq, cq)) as [Eq|Eq]; rewrite Eq in *.
        -- pose proof (nearest_decrease rp rq rm t ltac:(lia) ltac:(lia) ltac:(lia) Ht
             (Hnq eq_refl eq_refl) Hrq); pose proof (gtb01_range rm rp); lia.
        -- pose proof (gtb01_range rm rp); pose proof (gtb01_range rq rp); lia.
Qed.

Lemma run_midpoint_recursion_fuel_eq (f : nat) (ws : arr2) (p q : Z * Z) :
  run_midpoint_recursion_fuel (S f) ws p q =
  if line_overlap ws p q then
    match relocate_mid ws p q with
    | None => Some (inl ValueError)
    | Some m =>
        if pt_eqb m p || pt_eqb m q then Some (inr [(p, q)])
        else
          match run_midpoint_recursion_fuel f ws p m with
          | None => None
          | Some (inl e) => Some (inl e)
          | Some (inr l1) =>
              match run_midpoint_recursion_fuel f ws q m with
              | None => None
              | Some (inl e) => Some (inl e)
              | Some (inr l2) => Some (inr (l1 ++ l2))
              end
          end
    end
  else Some (inr [(p, q)]).
Proof. reflexivity. Qed.

Lemma run_midpoint_recursion_fuel_S (fuel : nat) (ws : arr2) (p q : Z * Z) res :
  run_midpoint_recursion_fuel fuel ws p q = Some res ->
  run_midpoint_recursion_fuel (S fuel) ws p q = Some res.
Proof.
  revert p q res; induction fuel as [|f IH]; intros p q res H; [discriminate |].
  rewrite run_midpoint_recursion_fuel_eq in H |- *.
  destruct (line_overlap ws p q); [| exact H].
  destruct (relocate_mid ws p q) as [m|]; [| exact H].
  destruct (pt_eqb m p || pt_eqb m q); [exact H |].
  destruct (run_midpoint_recursion_fuel f ws p m) as [[e|l1]|] eqn:E1; [| | discriminate];
    rewrite (IH _ _ _ E1); [exact H |].
  destruct (run_midpoint_recursion_fuel f ws q m) as [[e|l2]|] eqn:E2; [| | discriminate];
    rewrite (IH _ _ _ E2); exact H.
Qed.

Lemma run_midpoint_recursion_fuel_mono (f1 f2 : nat) (ws : arr2) (p q : Z * Z) res :
  (f1 <= f2)%nat -> run_midpoint_recursion_fuel f1 ws p q = Some res ->
  run_midpoint_recursion_fuel f2 ws p q = Some res.
Proof.
  intros Hle; induction Hle; [auto |].
  intros H; apply run_midpoint_recursion_fuel_S; auto.
Qed.

Lemma run_midpoint_recursion_fuel_total (n : nat) (ws : arr2) (p q : Z * Z) :
  in_canvas ws p -> in_canvas ws q -> (Z.to_nat (mid_measure ws p q) < n)%nat ->
  run_midpoint_recursion_fuel n ws p q <> None.
Proof.
  revert p q; induction n as [|n IH]; intros p q Hp Hq Hn; [lia |].
  cbn [run_midpoint_recursion_fuel].
  destruct (line_overlap ws p q); [| discriminate].
  destruct (relocate_mid ws p q) as [m|] eqn:Em; [| discriminate].
  destruct (pt_eqb m p) eqn:Emp; [discriminate |].
  destruct (pt_eqb m q) eqn:Emq; [discriminate |]; cbn [orb].
  destruct (mid_measure_child ws p q m Hp Hq Em Emp Emq) as [Hm Hlt1].
  rewrite relocate_mid_sym in Em.
  destruct (mid_measure_child ws q p m Hq Hp Em Emq Emp) as [_ Hlt2].
  rewrite (mid_measure_sym ws q p) in Hlt2.
  destruct (run_midpoint_recursion_fuel n ws p m) as [[e|l1]|] eqn:E1;
    [discriminate | | exfalso; revert E1; apply IH; auto; lia].
  destruct (run_midpoint_recursion_fuel n ws q m) as [[e|l2]|] eqn:E2;
    [discriminate | discriminate | exfalso; revert E2; apply IH; auto; lia].
Qed.

Lemma run_midpoint_recursion_fuel_nonempty (n : nat) (ws : arr2) (p q : Z * Z) l :
  run_midpoint_recursion_fuel n ws p q = Some (inr l) -> l <> [].
Proof.
  revert p q l; induction n as [|n IH]; intros p q l H; [discriminate |].
  cbn [run_midpoint_recursion_fuel] in H.
  destruct (line_overlap ws p q); [| injection H as <-; discriminate].
  destruct (relocate_mid ws p q) as [m|]; [| discriminate].
  destruct (pt_eqb m p || pt_eqb m q); [injection H as <-; discriminate |].
  destruct (run_midpoint_recursion_fuel n ws p m) as [[e|l1]|] eqn:E1; try discriminate.
  destruct (run_midpoint_recursion_fuel n ws q m) as [[e|l2]|] eqn:E2; try discriminate.
  injection H as <-; apply IH in E1; destruct l1; [contradiction | discriminate].
Qed.

Lemma pt_eqb_eq (x y : Z * Z) : pt_eqb x y = true <-> x = y.
Proof.
  destruct x, y; unfold pt_eqb; cbn; rewrite andb_true_iff, !Z.eqb_eq; split;
    [intros [-> ->]; reflexivity | intros E; injection E; auto].
Qed.

(** ** C8: every call of the midpoint recursion on two points of the canvas
    slice terminates (with a list of segments or the [ValueError] of an
    all-occupied midpoint column): once the fuel exceeds the measure of the
    segment the result no longer depends on it. A call returns its segment
    unsplit exactly when the rasterized line overlaps no occupied cell, or
    when the relocated midpoint is one of its end points. *)
Theorem midpoint_recursion_terminates_unsplit (ws : arr2) (p q : Z * Z) :
  in_canvas ws p -> in_canvas ws q ->
  (exists res, forall fuel, (Z.to_nat (mid_measure ws p q) < fuel)%nat ->
     run_midpoint_recursion_fuel fuel ws p q = Some res) /\
  (forall fuel l, run_midpoint_recursion_fuel fuel ws p q = Some (inr l) ->
     (l = [(p, q)] <->
      line_overlap ws p q = false \/
      exists m, relocate_mid ws p q = Some m /\ (m = p \/ m = q))).
Proof.
  intros Hp Hq; split.
  - set (n := S (Z.to_nat (mid_measure ws p q))).
    destruct (run_midpoint_recursion_fuel n ws p q) as [res|] eqn:E.
    + exists res; intros fuel Hf; apply (run_midpoint_recursion_fuel_mono n); [lia | exact E].
    + exfalso; revert E; apply run_midpoint_recursion_fuel_total; auto; lia.
  - intros [|f] l H; [discriminate |].
    cbn [run_midpoint_recursion_fuel] in H.
    destruct (line_overlap ws p q); [| injection H as <-; tauto].
    destruct (relocate_mid ws p q) as [m|]; [| discriminate].
    destruct (pt_eqb m p) eqn:Emp.
    + injection H as <-; split; [| auto].
      intros _; right; exists m; split; [reflexivity | left; apply pt_eqb_eq; exact Emp].
    + destruct (pt_eqb m q) eqn:Emq; cbn [orb] in H.
      * injection H as <-; split; [| auto].
        intros _; right; exists m; split; [reflexivity | right; apply pt_eqb_eq; exact Emq].
      * destruct (run_midpoint_recursion_fuel f ws p m) as [[e|l1]|] eqn:E1; try discriminate.
        destruct (run_midpoint_recursion_fuel f ws q m) as [[e|l2]|] eqn:E2; try discriminate.
        injection H as <-.
        apply run_midpoint_recursion_fuel_nonempty in E1, E2.
        split.
        -- intros Hl; exfalso; destruct l1 as [|s1 [|s1' l1]]; [contradiction | | discriminate].
           destruct l2; [contradiction | discriminate].
        -- intros [Hf | (m' & Em & Hm')]; [discriminate |].
           injection Em as <-; rewrite <- !pt_eqb_eq in Hm'; destruct Hm'; congruence.
Qed.

Lemma midpoint_recursion_terminates_unsplit_witness :
  in_canvas mid_canvas (1, 0) /\
  in_canvas mid_canvas (1, 2) /\
  run_midpoint_recursion_fuel 20 mid_canvas (1, 0) (1, 2)
    = Some (inr [((1, 0), (0, 0)); ((0, 1), (0, 0)); ((1, 2), (0, 1))]) /\
  ((exists res, forall fuel,
      lt (Z.to_nat (mid_measure mid_canvas (1, 0) (1, 2))) fuel ->
      run_midpoint_recursion_fuel fuel mid_canvas (1, 0) (1, 2) = Some res) /\
   (forall fuel l,
      run_midpoint_recursion_fuel fuel mid_canvas (1, 0) (1, 2) = Some (inr l) ->
      (l = [((1, 0), (1, 2))] <->
       line_overlap mid_canvas (1, 0) (1, 2) = false \/
       exists m, relocate_mid mid_canvas (1, 0) (1, 2) = Some m /\
                 (m = (1, 0) \/ m = (1, 2))))).
Proof.
  assert (Hc : forall x, In x [(1, 0); (1, 2)] ->
    in_canvas mid_canvas x)
    by (intros x [<- | [<- | []]]; unfold in_canvas; cbn; lia).
  split; [apply Hc; cbn; tauto |].
  split; [apply Hc; cbn; tauto |].
  split; [vm_compute; reflexivity |].
  apply midpoint_recursion_terminates_unsplit; apply Hc; cbn; tauto.
Defined.

(* ------------------------------------------------------------------ *)
(** ** Further properties of the placement code *)

(** X1: committing the same mask twice at the same pose gives the canvas that one commit gives. *)
Theorem place_object_in_bag_idempotent (ws data : arr2) (pose : Z * Z) :
  rows (place_object_in_bag (place_object_in_bag ws data pose) data pose) = rows ws /\
  cols (place_object_in_bag (place_object_in_bag ws data pose) data pose) = cols ws /\
  forall r c,
    get (place_object_in_bag (place_object_in_bag ws data pose) data pose) r c =
    get (place_object_in_bag ws data pose) r c.
Proof.
  destruct pose as [p0 p1]; unfold place_object_in_bag; cbn [rows cols get].
  destruct (slice_bounds (rows ws) p0 (p0 + rows data)) as [rs re] eqn:E1.
  destruct (slice_bounds (cols ws) p1 (p1 + cols data)) as [cs ce] eqn:E2.
  cbn [rows cols get]; rewrite E1, E2; cbn [rows cols get].
  split; [reflexivity | split; [reflexivity |]].
  intros r c; destruct (_ && _); reflexivity.
Qed.

(** X2: committing a mask that holds only background leaves every entry of the canvas unchanged. *)
Theorem place_object_in_bag_background_mask (ws data : arr2) (pose : Z * Z) :
  0 <= rows ws -> 0 <= cols ws -> 0 <= rows data -> 0 <= cols data ->
  (forall i j, 0 <= i < rows data -> 0 <= j < cols data -> get data i j = 0) ->
  forall r c, get (place_object_in_bag ws data pose) r c = get ws r c.
Proof.
  intros HN HM Hh Hw Hz r c.
  destruct (Z.eq_dec (get (place_object_in_bag ws data pose) r c) (get ws r c)) as [E|E];
    [exact E | exfalso].
  destruct (place_changed ws data pose r c HN HM Hh Hw E) as (_ & _ & i & j & Hi & Hj & Hnz & _).
  exact (Hnz (Hz i j Hi Hj)).
Qed.

Lemma place_object_in_bag_background_mask_witness :
  (forall i j, 0 <= i < 1 -> 0 <= j < 2 -> get (zeros 1 2) i j = 0) /\
  forall r c, get (place_object_in_bag (of_rows [[1; 0]; [0; 1]]) (zeros 1 2) (0, 1)) r c =
              get (of_rows [[1; 0]; [0; 1]]) r c.
Proof.
  split; [intros; reflexivity |].
  apply place_object_in_bag_background_mask; try (cbn; lia); intros; reflexivity.
Defined.

(** X3: two commits whose foreground pixels meet at no cell of the canvas can be done in either order. *)
Theorem place_object_in_bag_commute (ws d1 d2 : arr2) (p0 p1 q0 q1 : Z) :
  0 <= p0 -> 0 <= p1 -> 0 <= q0 -> 0 <= q1 ->
  0 <= rows d1 -> 0 <= cols d1 -> 0 <= rows d2 -> 0 <= cols d2 ->
  (forall r c, 0 <= r < rows ws -> 0 <= c < cols ws ->
     p0 <= r < p0 + rows d1 -> p1 <= c < p1 + cols d1 -> get d1 (r - p0) (c - p1) <> 0 ->
     q0 <= r < q0 + rows d2 -> q1 <= c < q1 + cols d2 -> get d2 (r - q0) (c - q1) = 0) ->
  forall r c, 0 <= r < rows ws -> 0 <= c < cols ws ->
    get (place_object_in_bag (place_object_in_bag ws d1 (p0, p1)) d2 (q0, q1)) r c =
    get (place_object_in_bag (place_object_in_bag ws d2 (q0, q1)) d1 (p0, p1)) r c.
Proof.
  intros Hp0 Hp1 Hq0 Hq1 Hr1 Hc1 Hr2 Hc2 Hdis r c Hr Hc.
  assert (Ra : forall d pose, rows (place_object_in_bag ws d pose) = rows ws)
    by (intros d [x y]; unfold place_object_in_bag; destruct (slice_bounds _ _ _), (slice_bounds _ _ _); reflexivity).
  assert (Ca : forall d pose, cols (place_object_in_bag ws d pose) = cols ws)
    by (intros d [x y]; unfold place_object_in_bag; destruct (slice_bounds _ _ _), (slice_bounds _ _ _); reflexivity).
  rewrite !place_get_nonneg by (rewrite ?Ra, ?Ca; lia).
  specialize (Hdis r c Hr Hc).
  destruct (Z.eqb_spec (get d1 (r - p0) (c - p1)) 0) as [E1|E1];
  destruct (Z.eqb_spec (get d2 (r - q0) (c - q1)) 0) as [E2|E2]; cbn [negb];
  rewrite ?andb_false_r, ?andb_true_r; zcase; try reflexivity;
  exfalso; apply E2, Hdis; lia.
Qed.

Lemma place_object_in_bag_commute_witness :
  (forall r c, 0 <= r < 1 -> 0 <= c < 2 -> get (of_rows [[1; 0]]) r c <> 0 ->
     get (of_rows [[0; 2]]) r c = 0) /\
  forall r c, 0 <= r < 3 -> 0 <= c < 3 ->
    get (place_object_in_bag (place_object_in_bag (zeros 3 3) (of_rows [[1; 0]]) (0, 0))
                             (of_rows [[0; 2]]) (0, 0)) r c =
    get (place_object_in_bag (place_object_in_bag (zeros 3 3) (of_rows [[0; 2]]) (0, 0))
                             (of_rows [[1; 0]]) (0, 0)) r c.
Proof.
  split.
  { intros r c Hr Hc Hd; assert (r = 0) by lia; subst r.
    destruct (Z.eq_dec c 0) as [-> | Hc0]; [reflexivity |].
    assert (c = 1) by lia; subst c; exfalso; apply Hd; reflexivity. }
  apply (place_object_in_bag_commute (zeros 3 3) (of_rows [[1; 0]]) (of_rows [[0; 2]]) 0 0 0 0);
    try (cbn; lia).
  intros r c _ _ Hr Hc Hd _ _.
  cbn [rows cols of_rows length hd] in Hr, Hc.
  assert (r = 0) by lia; subst r.
  destruct (Z.eq_dec c 0) as [-> | Hc0]; [reflexivity |].
  assert (c = 1) by lia; subst c; exfalso; apply Hd; reflexivity.
Defined.

Lemma pose_at_set_other (h : heap) (p q : nat) (v : Z * Z) :
  (p < length h)%nat -> q <> p -> pose_at (set_pose h p v) q = pose_at h q.
Proof.
  intros Hp Hq; unfold pose_at, set_pose.
  destruct (Nat.lt_ge_cases q p) as [Hlt | Hge].
  - rewrite app_nth1 by (rewrite length_firstn; lia).
    rewrite nth_firstn, (proj2 (Nat.ltb_lt q p)) by exact Hlt; reflexivity.
  - rewrite app_nth2 by (rewrite length_firstn; lia).
    rewrite length_firstn, Nat.min_l by lia.
    destruct (q - p)%nat as [|k] eqn:Ek; [lia |]; cbn [nth].
    rewrite nth_skipn; f_equal; lia.
Qed.





Lemma adjust_for_boundaries_spec (b : bag) (h h' : heap) (o o' : obj2) :
  (opose o < length h)%nat ->
  adjust_for_boundaries b h o = (h', o') ->
  size b / 2 - bb_h b <= fst (pose_at h' (opose o)) /\
  fst (pose_at h' (opose o)) + fst (odim o') <= size b / 2 + bb_h b /\
  size b / 2 - bb_h b <= snd (pose_at h' (opose o)) /\
  snd (pose_at h' (opose o)) + snd (odim o') <= size b / 2 + bb_h b /\
  opose o' = opose o /\ is_sheet o' = is_sheet o /\
  length h' = length h /\
  forall q, q <> opose o -> pose_at h' q = pose_at h q.
Proof.
  intros Hl E; unfold adjust_for_boundaries in E.
  set (lo := size b / 2 - bb_h b) in *; set (up := size b / 2 + bb_h b) in *.
  set (p := opose o) in *.
  destruct (pose_at h p) as [q0 q1] eqn:Eq.
  assert (L1 : forall v, length (set_pose h p v) = length h) by (intros; apply set_pose_length; exact Hl).
  assert (L2 : forall v w, length (set_pose (set_pose h p v) p w) = length h)
    by (intros; rewrite !set_pose_length; rewrite ?set_pose_length; lia).
  destruct (Z.leb_spec q0 lo); cbv beta iota zeta in E;
    rewrite ?pose_at_set_same in E by exact Hl; rewrite ?Eq in E; cbn [fst snd] in E.
  all: match type of E with context [if ?x <=? ?y then _ else _] => destruct (Z.leb_spec x y) end;
    cbv beta iota zeta in E.
  all: match type of E with context [if ?x <=? ?y then _ else _] => destruct (Z.leb_spec x y) end;
    cbv beta iota zeta in E;
    rewrite ?pose_at_set_same in E by (rewrite ?L1; exact Hl); cbn [fst snd] in E.
  all: match type of E with context [if ?x <=? ?y then _ else _] => destruct (Z.leb_spec x y) end;
    cbv beta iota zeta in E.
  all: injection E as <- <-; cbn [opose odim is_sheet fst snd].
  all: rewrite ?pose_at_set_same by (rewrite ?L1; exact Hl); rewrite ?Eq; cbn [fst snd].
  all: rewrite ?Eq in *; cbn [fst snd] in *.
  all: refine (conj _ (conj _ (conj _ (conj _ (conj eq_refl (conj eq_refl (conj _ _)))))));
    [lia | lia | lia | lia | rewrite ?L2, ?L1; reflexivity |
     intros q Hq; rewrite ?pose_at_set_other by (rewrite ?L1; auto); reflexivity].
Qed.


Lemma sub2_rows_head (a : arr2) (d c0 c1 : Z) :
  0 <= d -> 0 <= rows a -> rows (sub2 a 0 d c0 c1) = Z.min d (rows a).
Proof.
  intros H1 H2; unfold sub2, slice_bounds; cbn [rows].
  rewrite !py_norm_nonneg by lia; lia.
Qed.


Lemma sub2_rows_tail (a : arr2) (d c0 c1 : Z) :
  0 < d -> 0 <= rows a -> rows (sub2 a (- d) (rows a) c0 c1) = Z.min d (rows a).
Proof.
  intros H1 H2; unfold sub2, slice_bounds, py_norm; cbn [rows].
  destruct (Z.ltb_spec (- d) 0), (Z.ltb_spec (rows a) 0); lia.
Qed.

Lemma sub2_cols_head (a : arr2) (r0 r1 d : Z) :
  0 <= d -> 0 <= cols a -> cols (sub2 a r0 r1 0 d) = Z.min d (cols a).
Proof.
  intros H1 H2; unfold sub2, slice_bounds; cbn [cols].
  rewrite !py_norm_nonneg by lia; lia.
Qed.

Lemma sub2_cols_tail (a : arr2) (r0 r1 d : Z) :
  0 < d -> 0 <= cols a -> cols (sub2 a r0 r1 (- d) (cols a)) = Z.min d (cols a).
Proof.
  intros H1 H2; unfold sub2, slice_bounds, py_norm; cbn [cols].
  destruct (Z.ltb_spec (- d) 0), (Z.ltb_spec (cols a) 0); lia.
Qed.

Lemma sub2_cols_all (a : arr2) (r0 r1 : Z) :
  0 <= cols a -> cols (sub2 a r0 r1 0 (cols a)) = cols a.
Proof. intros H; rewrite sub2_cols_head by lia; lia. Qed.

Ltac shape_nonneg :=
  first [apply (proj1 (sub2_rows_nonneg _ _ _ _ _)) | apply (proj2 (sub2_rows_nonneg _ _ _ _ _)) | lia].
Ltac shape_rw :=
  repeat first
    [ rewrite sub2_rows_full by shape_nonneg
    | rewrite sub2_cols_all by shape_nonneg
    | rewrite sub2_rows_head by (first [lia | shape_nonneg])
    | rewrite sub2_rows_tail by (first [lia | shape_nonneg])
    | rewrite sub2_cols_head by (first [lia | shape_nonneg])
    | rewrite sub2_cols_tail by (first [lia | shape_nonneg]) ].

(** X5: when the object meets the window on both axes and its mask has the shape [dim], the cropped mask still has the shape of the new [dim], with both sides positive. *)
Theorem adjust_for_boundaries_keeps_shape (b : bag) (h h' : heap) (o o' : obj2) (q0 q1 : Z) :
  0 < bb_h b -> (opose o < length h)%nat -> pose_at h (opose o) = (q0, q1) ->
  rows (odata o) = fst (odim o) -> cols (odata o) = snd (odim o) ->
  0 < rows (odata o) -> 0 < cols (odata o) ->
  q0 < size b / 2 + bb_h b -> size b / 2 - bb_h b < q0 + fst (odim o) ->
  q1 < size b / 2 + bb_h b -> size b / 2 - bb_h b < q1 + snd (odim o) ->
  adjust_for_boundaries b h o = (h', o') ->
  rows (odata o') = fst (odim o') /\ cols (odata o') = snd (odim o') /\
  0 < fst (odim o') /\ 0 < snd (odim o').
Proof.
  intros Hb Hl Eq Hd0 Hd1 Hr Hc Hu0 Hl0 Hu1 Hl1 E; unfold adjust_for_boundaries in E.
  set (lo := size b / 2 - bb_h b) in *; set (up := size b / 2 + bb_h b) in *.
  set (p := opose o) in *.
  rewrite Eq in E.
  assert (L1 : forall v, length (set_pose h p v) = length h) by (intros; apply set_pose_length; exact Hl).
  destruct (Z.leb_spec q0 lo); cbv beta iota zeta in E;
    rewrite ?pose_at_set_same in E by exact Hl; rewrite ?Eq in E; cbn [fst snd] in E.
  all: match type of E with context [if ?x <=? ?y then _ else _] => destruct (Z.leb_spec x y) end;
    cbv beta iota zeta in E.
  all: match type of E with context [if ?x <=? ?y then _ else _] => destruct (Z.leb_spec x y) end;
    cbv beta iota zeta in E;
    rewrite ?pose_at_set_same in E by (rewrite ?L1; exact Hl); rewrite ?Eq in E; cbn [fst snd] in E.
  all: match type of E with context [if ?x <=? ?y then _ else _] => destruct (Z.leb_spec x y) end;
    cbv beta iota zeta in E.
  all: injection E as <- <-; cbn [opose odim is_sheet odata fst snd].
  all: rewrite ?Eq in *; cbn [fst snd] in *.
  all: shape_rw; lia.
Qed.

Lemma adjust_for_boundaries_keeps_shape_witness :
  exists h' o', adjust_for_boundaries (mk_bag (zeros 20 20) (zeros 20 20) 20 8 false) [(0, 0); (15, 16)] (mk_obj2 (zeros 4 4) (4, 4) 1 false) = (h', o') /\
  rows (odata o') = fst (odim o') /\ cols (odata o') = snd (odim o') /\
  0 < fst (odim o') /\ 0 < snd (odim o').
Proof.
  destruct (adjust_for_boundaries (mk_bag (zeros 20 20) (zeros 20 20) 20 8 false) [(0, 0); (15, 16)] (mk_obj2 (zeros 4 4) (4, 4) 1 false)) as [h' o'] eqn:E.
  exists h', o'; split; [reflexivity |].
  eapply (adjust_for_boundaries_keeps_shape _ _ h' _ o' 15 16); try exact E;
    first [reflexivity | vm_compute; reflexivity | cbn; lia].
Defined.

(** X6: an object whose last row is just above the window (and whose columns are inside it) is moved down to the top of the window with its row dimension set to 0, while its mask is left whole. *)
Theorem adjust_for_boundaries_above_window (b : bag) (h h' : heap) (o o' : obj2) (q0 q1 : Z) :
  0 < bb_h b -> (opose o < length h)%nat -> pose_at h (opose o) = (q0, q1) ->
  rows (odata o) = fst (odim o) -> 0 < rows (odata o) -> 0 <= cols (odata o) ->
  q0 + fst (odim o) = size b / 2 - bb_h b ->
  size b / 2 - bb_h b < q1 -> q1 + snd (odim o) < size b / 2 + bb_h b ->
  adjust_for_boundaries b h o = (h', o') ->
  pose_at h' (opose o) = (size b / 2 - bb_h b, q1) /\ odim o' = (0, snd (odim o)) /\
  rows (odata o') = rows (odata o) /\ cols (odata o') = cols (odata o) /\
  forall r c, get (odata o') r c = get (odata o) r c.
Proof.
  intros Hb Hl Eq Hd0 Hr Hc Hab Hc0 Hc1 E; unfold adjust_for_boundaries in E.
  set (lo := size b / 2 - bb_h b) in *; set (up := size b / 2 + bb_h b) in *.
  rewrite Eq in E.
  rewrite (proj2 (Z.leb_le q0 lo)) in E by lia; cbv beta iota zeta in E.
  rewrite pose_at_set_same in E by exact Hl; cbn [fst snd] in E.
  replace (fst (odim o) - (lo - q0)) with 0 in E by lia.
  rewrite (proj2 (Z.leb_nle up (lo + 0))) in E by lia; cbv beta iota zeta in E.
  rewrite (proj2 (Z.leb_nle q1 lo)) in E by lia; cbv beta iota zeta in E.
  rewrite pose_at_set_same in E by exact Hl; cbn [fst snd] in E.
  rewrite (proj2 (Z.leb_nle up (q1 + snd (odim o)))) in E by lia; cbv beta iota zeta in E.
  injection E as <- <-; cbn [odim odata opose].
  rewrite pose_at_set_same by exact Hl.
  unfold sub2, slice_bounds; cbn [rows cols get].
  rewrite !py_norm_nonneg by lia. rewrite Z.min_id.
  repeat split; try lia. intros r c; f_equal; lia.
Qed.

Lemma adjust_for_boundaries_above_window_witness :
  exists h' o',
    adjust_for_boundaries (mk_bag (zeros 20 20) (zeros 20 20) 20 8 false) [(0, 0); (0, 5)] (mk_obj2 (zeros 2 3) (2, 3) 1 false) = (h', o') /\
    pose_at h' 1 = (2, 5) /\ odim o' = (0, 3) /\
    rows (odata o') = 2 /\ cols (odata o') = 3 /\
    forall r c, get (odata o') r c = get (zeros 2 3) r c.
Proof.
  destruct (adjust_for_boundaries (mk_bag (zeros 20 20) (zeros 20 20) 20 8 false) [(0, 0); (0, 5)] (mk_obj2 (zeros 2 3) (2, 3) 1 false))
    as [h' o'] eqn:E.
  exists h', o'; split; [reflexivity |].
  eapply (adjust_for_boundaries_above_window (mk_bag (zeros 20 20) (zeros 20 20) 20 8 false)
           [(0, 0); (0, 5)] h' (mk_obj2 (zeros 2 3) (2, 3) 1 false) o' 0 5); try exact E;
    first [reflexivity | vm_compute; reflexivity | cbn; lia].
Defined.

Lemma where2_nonempty (a : arr2) :
  is_nil (where2 a) = false <->
  exists r c, 0 <= r < rows a /\ 0 <= c < cols a /\ get a r c <> 0.
Proof.
  split.
  - destruct (where2 a) as [|[r c] t] eqn:E; [discriminate |]; intros _.
    exists r, c; apply in_where2; rewrite E; left; reflexivity.
  - intros (r & c & H); apply in_where2 in H.
    destruct (where2 a); [contradiction | reflexivity].
Qed.

Lemma slice_window (p h n : Z) :
  0 <= p -> 0 <= h -> 0 <= n ->
  (0 < Z.max (Z.min p n) (Z.min (p + h) n) - Z.min p n -> Z.min p n = p) /\
  (forall r, 0 <= r < Z.max (Z.min p n) (Z.min (p + h) n) - Z.min p n <->
             0 <= r < h /\ p + r < n).
Proof. intros; split; [lia | intros r; lia]. Qed.

Lemma get_overlap_spec (b : bag) (od : arr2) (p0 p1 : Z) :
  0 <= p0 -> 0 <= p1 -> 0 <= rows od -> 0 <= cols od ->
  0 <= rows (ws_bag b) -> 0 <= cols (ws_bag b) ->
  (fst (get_overlap b od (p0, p1)) = true <->
   exists i j, 0 <= i < rows od /\ 0 <= j < cols od /\
     p0 + i < rows (ws_bag b) /\ p1 + j < cols (ws_bag b) /\
     get od i j <> 0 /\ get (ws_bag b) (p0 + i) (p1 + j) <> 0 /\
     get (boundary b) (p0 + i) (p1 + j) = 0).
Proof.
  intros Hp0 Hp1 Hh Hw HR HC; unfold get_overlap, sub2, slice_bounds, assign_where;
  cbn [fst rows cols get].
  rewrite !py_norm_nonneg by lia.
  rewrite negb_true_iff, where2_nonempty; cbn [rows cols get].
  destruct (slice_window p0 (rows od) (rows (ws_bag b)) Hp0 Hh HR) as [Er Wr].
  destruct (slice_window p1 (cols od) (cols (ws_bag b)) Hp1 Hw HC) as [Ec Wc].
  set (R := rows (ws_bag b)) in *; set (C := cols (ws_bag b)) in *.
  set (rs := Z.min p0 R) in *; set (cs := Z.min p1 C) in *.
  set (re := Z.max rs (Z.min (p0 + rows od) R)) in *.
  set (ce := Z.max cs (Z.min (p1 + cols od) C)) in *.
  split.
  - intros (r & c & Hr & Hc & Hnz).
    rewrite Er in Hnz by lia; rewrite Ec in Hnz by lia.
    apply Wr in Hr; apply Wc in Hc.
    rewrite (proj2 (Z.leb_le 0 (r + p0))), (proj2 (Z.ltb_lt (r + p0) R)),
      (proj2 (Z.leb_le 0 (c + p1))), (proj2 (Z.ltb_lt (c + p1) C)) in Hnz by lia.
    cbn [andb] in Hnz.
    exists r, c; rewrite (Z.add_comm p0 r), (Z.add_comm p1 c).
    destruct (Z.eqb_spec (get (boundary b) (r + p0) (c + p1)) 0) as [B|B]; cbn [negb] in Hnz;
    [| rewrite Z.eqb_refl in Hnz; lia].
    destruct (Z.eqb_spec (get (ws_bag b) (r + p0) (c + p1)) 0) as [W|W];
    [rewrite Z.mul_0_r in Hnz; lia |].
    repeat split; try lia; try assumption.
  - intros (i & j & Hi & Hj & Hi' & Hj' & Hod & Hws & Hbd).
    exists i, j.
    assert (Hi2 : 0 <= i < re - rs) by (apply Wr; lia).
    assert (Hj2 : 0 <= j < ce - cs) by (apply Wc; lia).
    split; [exact Hi2 | split; [exact Hj2 |]].
    rewrite Er by lia; rewrite Ec by lia.
    rewrite (proj2 (Z.leb_le 0 (i + p0))), (proj2 (Z.ltb_lt (i + p0) R)),
      (proj2 (Z.leb_le 0 (j + p1))), (proj2 (Z.ltb_lt (j + p1) C)) by lia.
    rewrite (Z.add_comm i p0), (Z.add_comm j p1), Hbd; cbn [andb negb Z.eqb].
    rewrite (proj2 (Z.eqb_neq _ 0) Hws); lia.
Qed.

(** X7: for a non-negative pose, [get_overlap] reports an overlap iff some foreground pixel of the mask lands on an occupied cell of the canvas that is not a boundary cell. *)
Theorem get_overlap_iff (b : bag) (od : arr2) (p0 p1 : Z) :
  0 <= p0 -> 0 <= p1 -> 0 <= rows od -> 0 <= cols od ->
  0 <= rows (ws_bag b) -> 0 <= cols (ws_bag b) ->
  (fst (get_overlap b od (p0, p1)) = true <->
   exists i j, 0 <= i < rows od /\ 0 <= j < cols od /\
     p0 + i < rows (ws_bag b) /\ p1 + j < cols (ws_bag b) /\
     get od i j <> 0 /\ get (ws_bag b) (p0 + i) (p1 + j) <> 0 /\
     get (boundary b) (p0 + i) (p1 + j) = 0).
Proof. exact (get_overlap_spec b od p0 p1). Qed.


Lemma list_min_le_max (l : list Z) : l <> [] -> list_min 0 l <= list_max 0 l.
Proof.
  intros Hl; destruct (list_min_spec 0 l Hl) as [Hin _].
  destruct (list_max_spec 0 l Hl) as [_ Hle]; exact (Hle _ Hin).
Qed.

Lemma get_overlap_iff_witness :
  fst (get_overlap (mk_bag (of_rows [[0; 1]; [1; 1]]) (of_rows [[0; 0]; [0; 1]]) 2 1 false)
                   (of_rows [[1]; [1]]) (0, 1)) = true /\
  (fst (get_overlap (mk_bag (of_rows [[0; 1]; [1; 1]]) (of_rows [[0; 0]; [0; 1]]) 2 1 false)
                    (of_rows [[1]; [1]]) (0, 1)) = true <->
   exists i j, 0 <= i < 2 /\ 0 <= j < 1 /\ 0 + i < 2 /\ 1 + j < 2 /\
     get (of_rows [[1]; [1]]) i j <> 0 /\ get (of_rows [[0; 1]; [1; 1]]) (0 + i) (1 + j) <> 0 /\
     get (of_rows [[0; 0]; [0; 1]]) (0 + i) (1 + j) = 0).
Proof.
  split; [vm_compute; reflexivity |].
  exact (get_overlap_iff (mk_bag (of_rows [[0; 1]; [1; 1]]) (of_rows [[0; 0]; [0; 1]]) 2 1 false)
           (of_rows [[1]; [1]]) 0 1 ltac:(lia) ltac:(lia) ltac:(cbn; lia) ltac:(cbn; lia)
           ltac:(cbn; lia) ltac:(cbn; lia)).
Defined.

Lemma overlap_iter_frame (b : bag) (o : obj2) (s s' : ol_loop) (brk : bool) :
  (opose o < length (ol_heap s))%nat -> overlap_iter b o s = inr (brk, s') ->
  length (ol_heap s') = length (ol_heap s) /\
  (forall q, q <> opose o -> pose_at (ol_heap s') q = pose_at (ol_heap s) q) /\
  (row_shift s = false -> row_shift s' = false /\
     fst (pose_at (ol_heap s') (opose o)) <= fst (pose_at (ol_heap s) (opose o))) /\
  (col_shift s = false -> col_shift s' = false /\
     snd (pose_at (ol_heap s') (opose o)) = snd (pose_at (ol_heap s) (opose o))).
Proof.
  intros Hl H; unfold overlap_iter in H.
  destruct (choose_segment (measure_label (obj_int s))) as [e | sel]; [discriminate |].
  destruct (is_nil (where2 sel)) eqn:Ev; [discriminate |].
  assert (Hne : forall f : Z * Z -> Z, map f (where2 sel) <> [])
    by (intros f; destruct (where2 sel); discriminate).
  pose proof (list_min_le_max _ (Hne fst)) as Hrr.
  set (r0 := list_min 0 (map fst (where2 sel))) in *.
  set (r1 := list_max 0 (map fst (where2 sel))) in *.
  set (p := opose o) in *.
  destruct (pose_at (ol_heap s) p) as [x0 x1] eqn:Ex.
  set (h1 := set_pose (ol_heap s) p _) in H.
  assert (L1 : length h1 = length (ol_heap s)) by (apply set_pose_length; exact Hl).
  assert (P1 : pose_at h1 p = (shift_axis (row_shift s) r0 r1 (rows sel - 1) x0,
                               shift_axis (col_shift s) (list_min 0 (map snd (where2 sel)))
                                 (list_max 0 (map snd (where2 sel))) (cols sel - 1) x1))
    by (apply pose_at_set_same; exact Hl).
  assert (O1 : forall q, q <> p -> pose_at h1 q = pose_at (ol_heap s) q)
    by (intros; apply pose_at_set_other; auto).
  assert (SR : forall lo hi m x, shift_axis false lo hi m x = x) by reflexivity.
  destruct (_ <=? _).
  - injection H as <- <-; cbn [ol_heap row_shift col_shift].
    rewrite P1; cbn [fst snd].
    split; [exact L1 | split; [exact O1 |]].
    split; intros Hf; rewrite Hf; split; reflexivity || (rewrite SR; lia).
  - destruct (2 <=? ol_ctr s).
    + cbv zeta in H.
      destruct (_ && _) eqn:Eosc.
      * destruct (get_overlap b (odata o) _) as [fl oi]; injection H as <- <-;
          cbn [ol_heap row_shift col_shift].
        rewrite pose_at_set_same by (rewrite L1; exact Hl).
        rewrite P1; cbn [fst snd].
        split; [rewrite set_pose_length; [exact L1 | rewrite L1; exact Hl] |].
        split; [intros q Hq; rewrite pose_at_set_other by (rewrite ?L1; auto); apply O1; exact Hq |].
        split; intros Hf; rewrite ?Hf, ?SR; split; lia || reflexivity.
      * destruct (get_overlap b (odata o) _) as [fl oi]; injection H as <- <-;
          cbn [ol_heap row_shift col_shift].
        rewrite P1; cbn [fst snd].
        split; [exact L1 | split; [exact O1 |]].
        split; intros Hf; rewrite Hf; split; reflexivity || (rewrite SR; lia).
    + destruct (get_overlap b (odata o) _) as [fl oi]; injection H as <- <-;
        cbn [ol_heap row_shift col_shift].
      rewrite P1; cbn [fst snd].
      split; [exact L1 | split; [exact O1 |]].
      split; intros Hf; rewrite Hf; split; reflexivity || (rewrite SR; lia).
Qed.

Lemma overlap_while_frame (b : bag) (o : obj2) :
  forall n s s', (opose o < length (ol_heap s))%nat ->
  overlap_while n b o s = Some (inr s') ->
  length (ol_heap s') = length (ol_heap s) /\
  (forall q, q <> opose o -> pose_at (ol_heap s') q = pose_at (ol_heap s) q) /\
  (row_shift s = false -> row_shift s' = false /\
     fst (pose_at (ol_heap s') (opose o)) <= fst (pose_at (ol_heap s) (opose o))) /\
  (col_shift s = false -> col_shift s' = false /\
     snd (pose_at (ol_heap s') (opose o)) = snd (pose_at (ol_heap s) (opose o))).
Proof.
  induction n as [|n IH]; intros s s' Hl H; cbn [overlap_while] in H.
  - destruct (negb (OVERLAP_FLAG s)); [| discriminate].
    injection H as <-; repeat split; auto; lia.
  - destruct (negb (OVERLAP_FLAG s)).
    { injection H as <-; repeat split; auto; lia. }
    destruct (overlap_iter b o s) as [e | [brk s1]] eqn:Ei; [discriminate |].
    destruct (overlap_iter_frame b o s s1 brk Hl Ei) as (L & O & R & C).
    destruct brk.
    + injection H as <-; exact (conj L (conj O (conj R C))).
    + destruct (IH s1 s' ltac:(rewrite L; exact Hl) H) as (L' & O' & R' & C').
      split; [congruence |].
      split; [intros q Hq; rewrite O', O by exact Hq; reflexivity |].
      split.
      * intros Hf; destruct (R Hf) as [Hf1 Hle]; destruct (R' Hf1) as [Hf2 Hle']; split; [exact Hf2 | lia].
      * intros Hf; destruct (C Hf) as [Hf1 Hle]; destruct (C' Hf1) as [Hf2 Hle']; split; [exact Hf2 | lia].
Qed.

(** X8: a run of the overlap rule that ends normally moves only the object's own pose, keeps the boundary, [size] and [bb_h], commits the mask at its final pose exactly when [fix_obj] is set, never moves the object down when [row_shift] is off, and never moves it sideways when [col_shift] is off. *)
Theorem run_shape_grammar_overlap_frame (b b' : bag) (h h' : heap) (o : obj2)
    (fix_obj rsh csh : bool) :
  (opose o < length h)%nat ->
  run_shape_grammar_overlap b h o fix_obj rsh csh = Some (inr (b', h')) ->
  length h' = length h /\
  (forall q, q <> opose o -> pose_at h' q = pose_at h q) /\
  boundary b' = boundary b /\ size b' = size b /\ bb_h b' = bb_h b /\
  ws_bag b' = (if fix_obj then place_object_in_bag (ws_bag b) (odata o) (pose_at h' (opose o))
               else ws_bag b) /\
  (rsh = false -> fst (pose_at h' (opose o)) <= fst (pose_at h (opose o))) /\
  (csh = false -> snd (pose_at h' (opose o)) = snd (pose_at h (opose o))).
Proof.
  intros Hl H; unfold run_shape_grammar_overlap, run_shape_grammar_overlap_fuel in H.
  destruct (get_overlap b (odata o) (pose_at h (opose o))) as [fl oi].
  destruct fl.
  - destruct (overlap_while 10 b o _) as [[e | s]|] eqn:Ew; try discriminate.
    destruct (overlap_while_frame b o 10
      (mk_ol_loop h rsh csh (LATERAL_OSC_FLAG b) [opose o] 0 true oi) s Hl Ew) as (L & O & R & C); cbn [ol_heap row_shift col_shift] in *.
    destruct fix_obj; injection H as <- <-; cbn [ws_bag boundary size bb_h set_ws set_lat];
      (split; [exact L | split; [exact O |]]);
      repeat split; try reflexivity;
      try (intros Hf; destruct (R Hf) as [_ Hle]; exact Hle);
      try (intros Hf; destruct (C Hf) as [_ Hle]; exact Hle).
  - destruct fix_obj; injection H as <- <-; cbn [ol_heap ws_bag boundary size bb_h set_ws set_lat];
      repeat split; auto; lia.
Qed.

Lemma run_shape_grammar_overlap_frame_witness :
  exists b' h',
    run_shape_grammar_overlap
      (mk_bag (mk_arr2 8 8 (fun r c => if (r =? 3) && (c =? 3) then 1 else 0)) (zeros 8 8) 8 3 false)
      [(0, 0); (3, 3)] (mk_obj2 (of_rows [[1]]) (1, 1) 1 false) true true false = Some (inr (b', h')) /\
    length h' = 2%nat /\
    (forall q, q <> 1%nat -> pose_at h' q = pose_at [(0, 0); (3, 3)] q) /\
    boundary b' = zeros 8 8 /\ size b' = 8 /\ bb_h b' = 3 /\
    ws_bag b' = place_object_in_bag (mk_arr2 8 8 (fun r c => if (r =? 3) && (c =? 3) then 1 else 0))
                  (of_rows [[1]]) (pose_at h' 1) /\
    (true = false -> fst (pose_at h' 1) <= 3) /\
    (false = false -> snd (pose_at h' 1) = 3).
Proof.
  destruct (run_shape_grammar_overlap
      (mk_bag (mk_arr2 8 8 (fun r c => if (r =? 3) && (c =? 3) then 1 else 0)) (zeros 8 8) 8 3 false)
      [(0, 0); (3, 3)] (mk_obj2 (of_rows [[1]]) (1, 1) 1 false) true true false)
    as [[e | [b' h']] |] eqn:E; try (vm_compute in E; discriminate).
  exists b', h'; split; [reflexivity |].
  refine (run_shape_grammar_overlap_frame _ b' _ h' _ true true false _ E); cbn; lia.
Defined.

Lemma clear_overlap_no_overlap (b : bag) (dil : arr2) (pose : Z * Z) (lbl : Z) :
  fst (get_overlap b (scale2 lbl (as_bool (assign_where_in dil (snd (get_overlap b dil pose)) 0)))
         pose) = false.
Proof.
  destruct pose as [p0 p1]; unfold get_overlap; cbn [fst snd scale2 as_bool assign_where_in rows cols get].
  set (loc := sub2 (assign_where (ws_bag b) (boundary b) 0) p0 (p0 + rows dil) p1 (p1 + cols dil)).
  rewrite where2_nil; [reflexivity |].
  intros r c Hr Hc; cbn [rows cols get] in *.
  unfold in_bounds; cbn [rows cols get].
  rewrite (proj2 (Z.leb_le 0 r)), (proj2 (Z.ltb_lt r (rows loc))),
    (proj2 (Z.leb_le 0 c)), (proj2 (Z.ltb_lt c (cols loc))) by lia; cbn [andb].
  destruct (Z.eqb_spec (get loc r c) 0) as [E|E]; [ring |].
  rewrite !Z.mul_1_r.
  destruct (Z.eqb_spec (get dil r c) 0) as [D|D]; cbn [negb andb]; rewrite ?D; cbn; ring.
Qed.

(** X10: the sheet that [inflate_sheet] returns has no overlap at its pose, and committing it changes no occupied non-boundary cell of the canvas. *)
Theorem inflate_sheet_no_overlap (b : bag) (h : heap) (o o' : obj2) (axes0 lbl p0 p1 : Z) :
  inflate_sheet b h o axes0 lbl = inr o' -> pose_at h (opose o) = (p0, p1) ->
  0 <= p0 -> 0 <= p1 -> 0 <= rows (odata o) -> 0 <= cols (odata o) ->
  0 <= rows (ws_bag b) -> 0 <= cols (ws_bag b) ->
  fst (get_overlap b (odata o') (p0, p1)) = false /\
  forall r c, 0 <= r < rows (ws_bag b) -> 0 <= c < cols (ws_bag b) ->
    get (ws_bag b) r c <> 0 -> get (boundary b) r c = 0 ->
    get (place_object_in_bag (ws_bag b) (odata o') (p0, p1)) r c = get (ws_bag b) r c.
Proof.
  intros E Hp Hp0 Hp1 Hh Hw HR HC.
  assert (F : fst (get_overlap b (odata o') (p0, p1)) = false /\
              rows (odata o') = rows (odata o) /\ cols (odata o') = cols (odata o)).
  { revert E; unfold inflate_sheet, binary_dilation.
    destruct (is_nil (disk axes0)); [discriminate |].
    intros E; injection E as <-; rewrite <- Hp; cbn [odata rows cols].
    split; [apply clear_overlap_no_overlap | split; reflexivity]. }
  destruct F as (F & Fr & Fc); split; [exact F |].
  intros r c Hr Hc Hws Hbd.
  rewrite place_get_nonneg by lia.
  destruct ((p0 <=? r) && (r <? p0 + rows (odata o')) && (p1 <=? c) && (c <? p1 + cols (odata o'))
            && negb (get (odata o') (r - p0) (c - p1) =? 0)) eqn:Ec; [| reflexivity].
  exfalso.
  repeat rewrite andb_true_iff in Ec; destruct Ec as ((((E1 & E2) & E3) & E4) & E5).
  apply Z.leb_le in E1; apply Z.ltb_lt in E2; apply Z.leb_le in E3; apply Z.ltb_lt in E4.
  apply negb_true_iff, Z.eqb_neq in E5.
  assert (T : fst (get_overlap b (odata o') (p0, p1)) = true).
  { apply get_overlap_spec; try lia.
    exists (r - p0), (c - p1).
    replace (p0 + (r - p0)) with r by ring; replace (p1 + (c - p1)) with c by ring.
    repeat split; try lia; assumption. }
  congruence.
Qed.

Lemma inflate_sheet_no_overlap_witness :
  exists o',
    inflate_sheet (mk_bag (of_rows [[1; 1; 0; 0]; [1; 0; 0; 0]; [0; 0; 0; 0]; [0; 0; 0; 1]])
                          (zeros 4 4) 4 2 false)
                  [(1, 1)] (mk_obj2 (of_rows [[1; 1]]) (1, 2) 0 true) 1 7 = inr o' /\
    fst (get_overlap (mk_bag (of_rows [[1; 1; 0; 0]; [1; 0; 0; 0]; [0; 0; 0; 0]; [0; 0; 0; 1]])
                             (zeros 4 4) 4 2 false) (odata o') (1, 1)) = false /\
    forall r c, 0 <= r < 4 -> 0 <= c < 4 ->
      get (of_rows [[1; 1; 0; 0]; [1; 0; 0; 0]; [0; 0; 0; 0]; [0; 0; 0; 1]]) r c <> 0 ->
      get (zeros 4 4) r c = 0 ->
      get (place_object_in_bag (of_rows [[1; 1; 0; 0]; [1; 0; 0; 0]; [0; 0; 0; 0]; [0; 0; 0; 1]])
                               (odata o') (1, 1)) r c =
      get (of_rows [[1; 1; 0; 0]; [1; 0; 0; 0]; [0; 0; 0; 0]; [0; 0; 0; 1]]) r c.
Proof.
  destruct (inflate_sheet (mk_bag (of_rows [[1; 1; 0; 0]; [1; 0; 0; 0]; [0; 0; 0; 0]; [0; 0; 0; 1]])
                          (zeros 4 4) 4 2 false)
                  [(1, 1)] (mk_obj2 (of_rows [[1; 1]]) (1, 2) 0 true) 1 7) as [e | o'] eqn:E;
    [vm_compute in E; discriminate |].
  exists o'; split; [reflexivity |].
  refine (inflate_sheet_no_overlap _ _ _ o' 1 7 1 1 E eq_refl _ _ _ _ _ _); cbn; lia.
Defined.

(** X11: the segments that the midpoint recursion returns start at the first end point, and every end point of every segment is in the canvas and is one of the two given end points or a background cell. *)
Theorem midpoint_recursion_endpoints (fuel : nat) (ws : arr2) (p q : Z * Z) (l : list seg) :
  in_canvas ws p -> in_canvas ws q ->
  run_midpoint_recursion_fuel fuel ws p q = Some (inr l) ->
  (exists y l', l = (p, y) :: l') /\
  forall x, In x (flat_map (fun s => [fst s; snd s]) l) ->
    in_canvas ws x /\ (x = p \/ x = q \/ get ws (fst x) (snd x) = 0).
Proof.
  revert p q l; induction fuel as [|n IH]; intros p q l Hp Hq H; [discriminate |].
  cbn [run_midpoint_recursion_fuel] in H.
  assert (Base : forall l, l = [(p, q)] -> (exists y l', l = (p, y) :: l') /\
            forall x, In x (flat_map (fun s => [fst s; snd s]) l) ->
              in_canvas ws x /\ (x = p \/ x = q \/ get ws (fst x) (snd x) = 0)).
  { intros l0 ->; split; [eexists _, []; reflexivity |].
    intros x Hx; cbn in Hx; destruct Hx as [<- | [<- | []]]; auto. }
  destruct (line_overlap ws p q); [| injection H as <-; apply Base; reflexivity].
  destruct (relocate_mid ws p q) as [m|] eqn:Em; [| discriminate].
  destruct (pt_eqb m p) eqn:Emp; [injection H as <-; apply Base; reflexivity |].
  destruct (pt_eqb m q) eqn:Emq; [injection H as <-; apply Base; reflexivity |]; cbn [orb] in H.
  destruct (mid_measure_child ws p q m Hp Hq Em Emp Emq) as [Hm _].
  destruct (relocate_mid_spec ws p q m Em) as (_ & _ & Hz & _).
  destruct (run_midpoint_recursion_fuel n ws p m) as [[e|l1]|] eqn:E1; try discriminate.
  destruct (run_midpoint_recursion_fuel n ws q m) as [[e|l2]|] eqn:E2; try discriminate.
  injection H as <-.
  destruct (IH p m l1 Hp Hm E1) as [[y [l' ->]] H1].
  destruct (IH q m l2 Hq Hm E2) as [_ H2].
  split; [exists y, (l' ++ l2); reflexivity |].
  intros x Hx; rewrite flat_map_app in Hx; apply in_app_or in Hx as [Hx | Hx].
  - destruct (H1 x Hx) as [Hc [-> | [-> | Hb]]]; split; auto.
  - destruct (H2 x Hx) as [Hc [-> | [-> | Hb]]]; split; auto.
Qed.

Lemma midpoint_recursion_endpoints_witness :
  exists l, run_midpoint_recursion_fuel 20 mid_canvas (1, 0) (1, 2) = Some (inr l) /\
  (exists y l', l = ((1, 0), y) :: l') /\
  forall x, In x (flat_map (fun s => [fst s; snd s]) l) ->
    in_canvas mid_canvas x /\ (x = (1, 0) \/ x = (1, 2) \/ get mid_canvas (fst x) (snd x) = 0).
Proof.
  destruct (run_midpoint_recursion_fuel 20 mid_canvas (1, 0) (1, 2)) as [[e | l] |] eqn:E;
    try (vm_compute in E; discriminate).
  exists l; split; [reflexivity |].
  exact (midpoint_recursion_endpoints 20 mid_canvas (1, 0) (1, 2) l
           ltac:(unfold in_canvas; cbn; lia) ltac:(unfold in_canvas; cbn; lia) E).
Defined.

Lemma line_loop_length (n : nat) (steep : bool) (r c d dr dc sr sc : Z) :
  length (line_loop n steep r c d dr dc sr sc) = n.
Proof.
  revert r c d; induction n as [|n IH]; intros r c d; cbn [line_loop length]; [reflexivity |].
  rewrite IH; reflexivity.
Qed.

(** X12: the rasterized line starts at its first point, ends at its second point, has as many pixels as the larger of the two coordinate distances plus one, and an occupied end point always counts as an overlap of the line. *)
Theorem line_overlap_endpoints (ws : arr2) (p q : Z * Z) :
  hd_error (line (fst p) (snd p) (fst q) (snd q)) = Some p /\
  last (line (fst p) (snd p) (fst q) (snd q)) p = q /\
  Z.of_nat (length (line (fst p) (snd p) (fst q) (snd q))) =
    Z.max (Z.abs (fst q - fst p)) (Z.abs (snd q - snd p)) + 1 /\
  (get ws (fst p) (snd p) <> 0 \/ get ws (fst q) (snd q) <> 0 -> line_overlap ws p q = true).
Proof.
  destruct p as [r0 c0], q as [r1 c1]; cbn [fst snd].
  assert (Hd : hd_error (line r0 c0 r1 c1) = Some (r0, c0)).
  { unfold line.
    destruct (Z.ltb_spec (Z.abs (c1 - c0)) (Z.abs (r1 - r0))); cbv zeta iota beta.
    - destruct (Z.to_nat (Z.abs (r1 - r0))) eqn:E; [lia |]; reflexivity.
    - destruct (Z.to_nat (Z.abs (c1 - c0))) eqn:E; [| reflexivity].
      cbn; f_equal; f_equal; lia. }
  assert (Hl : last (line r0 c0 r1 c1) (r0, c0) = (r1, c1)).
  { unfold line; destruct (_ <? _); cbv zeta iota beta; apply last_last. }
  assert (Hn : Z.of_nat (length (line r0 c0 r1 c1)) =
               Z.max (Z.abs (r1 - r0)) (Z.abs (c1 - c0)) + 1).
  { unfold line; destruct (Z.ltb_spec (Z.abs (c1 - c0)) (Z.abs (r1 - r0))); cbv zeta iota beta;
      rewrite length_app, line_loop_length; cbn [length]; lia. }
  split; [exact Hd | split; [exact Hl | split; [exact Hn |]]].
  intros Hocc; unfold line_overlap; cbn [fst snd]; apply existsb_exists.
  destruct Hocc as [Ho | Ho].
  - exists (r0, c0); split; [| cbn [fst snd]; apply negb_true_iff, Z.eqb_neq; exact Ho].
    destruct (line r0 c0 r1 c1) as [|x t]; [discriminate | injection Hd as ->; left; reflexivity].
  - exists (r1, c1); split; [| cbn [fst snd]; apply negb_true_iff, Z.eqb_neq; exact Ho].
    unfold line; destruct (_ <? _); cbv zeta iota beta; apply in_or_app; right; left; reflexivity.
Qed.

Lemma crop_to_foreground_spec (mask m : arr2) :
  crop_to_foreground mask = Some m ->
  exists r0 c0,
    (forall r c, 0 <= r < rows mask -> 0 <= c < cols mask -> get mask r c <> 0 ->
       0 <= r - r0 < rows m /\ 0 <= c - c0 < cols m /\ get m (r - r0) (c - c0) = get mask r c) /\
    (exists j, 0 <= j < cols m /\ get m 0 j <> 0) /\
    (exists i, 0 <= i < rows m /\ get m i 0 <> 0).
Proof.
  unfold crop_to_foreground; intros Hc.
  destruct (is_nil (where2 mask)) eqn:Ew; [discriminate |].
  injection Hc as <-.
  assert (Hne : forall f : Z * Z -> Z, map f (where2 mask) <> []).
  { intros f; destruct (where2 mask); discriminate. }
  destruct (list_max_spec 0 _ (Hne fst)) as [_ Hrmax].
  destruct (list_max_spec 0 _ (Hne snd)) as [_ Hcmax].
  destruct (list_min_spec 0 _ (Hne fst)) as [Hrmin_in Hrmin].
  destruct (list_min_spec 0 _ (Hne snd)) as [Hcmin_in Hcmin].
  set (rmax := list_max 0 (map fst (where2 mask))) in *.
  set (cmax := list_max 0 (map snd (where2 mask))) in *.
  set (rmin := list_min 0 (map fst (where2 mask))) in *.
  set (cmin := list_min 0 (map snd (where2 mask))) in *.
  assert (Hin : forall r c, 0 <= r < rows mask -> 0 <= c < cols mask -> get mask r c <> 0 ->
                  rmin <= r <= rmax /\ cmin <= c <= cmax).
  { intros r c Hr Hc Hnz.
    assert (Hw : In (r, c) (where2 mask)) by (apply in_where2; auto).
    assert (H1 : In r (map fst (where2 mask))) by (apply in_map_iff; exists (r, c); auto).
    assert (H2 : In c (map snd (where2 mask))) by (apply in_map_iff; exists (r, c); auto).
    split; split; auto. }
  apply in_map_iff in Hrmin_in as [[ra ca] [Era Hra]]; cbn in Era; subst ra.
  apply in_where2 in Hra as (Hra & Hca & Hnza).
  apply in_map_iff in Hcmin_in as [[rb cb] [Ecb Hrb]]; cbn in Ecb; subst cb.
  apply in_where2 in Hrb as (Hrb & Hcb & Hnzb).
  destruct (Hin _ _ Hra Hca Hnza) as [_ Ha]; destruct (Hin _ _ Hrb Hcb Hnzb) as [Hb _].
  unfold sub2, slice_bounds; cbn [rows cols get].
  rewrite !(py_norm_nonneg (rows mask)), !(py_norm_nonneg (cols mask)) by lia.
  rewrite (Z.min_l rmin), (Z.min_l cmin) by lia.
  assert (Rr : Z.max rmin (Z.min (rmin + (rmax - rmin + 1) + 1) (rows mask)) - rmin
               = Z.min (rmax + 2) (rows mask) - rmin) by lia.
  assert (Rc : Z.max cmin (Z.min (cmin + (cmax - cmin + 1) + 1) (cols mask)) - cmin
               = Z.min (cmax + 2) (cols mask) - cmin) by lia.
  rewrite Rr, Rc.
  exists rmin, cmin; split; [| split].
  - intros r c Hr Hc Hnz; destruct (Hin r c Hr Hc Hnz) as [Hr' Hc'].
    repeat split; try lia. f_equal; lia.
  - exists (ca - cmin); split; [lia |]. rewrite Z.add_0_l, Z.sub_add; exact Hnza.
  - exists (rb - rmin); split; [lia |]. rewrite Z.add_0_l, Z.sub_add; exact Hnzb.
Qed.

(** X13: cropping a mask to its foreground keeps every foreground pixel, translated by one offset and with its value, and the crop has foreground in its first row and in its first column. *)
Theorem crop_to_foreground_keeps_foreground (mask m : arr2) :
  crop_to_foreground mask = Some m ->
  exists r0 c0,
    (forall r c, 0 <= r < rows mask -> 0 <= c < cols mask -> get mask r c <> 0 ->
       0 <= r - r0 < rows m /\ 0 <= c - c0 < cols m /\ get m (r - r0) (c - c0) = get mask r c) /\
    (exists j, 0 <= j < cols m /\ get m 0 j <> 0) /\
    (exists i, 0 <= i < rows m /\ get m i 0 <> 0).
Proof. exact (crop_to_foreground_spec mask m). Qed.

(** X14: for integer semi-axes at least 1, the unrotated ellipse rasterizes to a non-empty mask, so the crop succeeds. *)
Theorem create_ellipse_rot0_some (a0 a1 : Z) :
  1 <= a0 -> 1 <= a1 ->
  exists m, create_ellipse_rot0 a0 a1 = Some m /\ 1 <= rows m /\ 1 <= cols m.
Proof.
  intros H0 H1; unfold create_ellipse_rot0.
  set (M := Z.max a0 a1).
  assert (HM : a0 <= M /\ a1 <= M) by (unfold M; lia).
  set (px := ellipse_rot0 (M + 1) (M + 1) a0 a1 (2 * M + 1, 2 * M + 1)).
  set (mk := mask_of_pixels (2 * M + 1) (2 * M + 1) px).
  assert (Hpx : In (M + 1, M + 1) px).
  { unfold px, ellipse_rot0; cbv zeta; apply in_flat_map; exists (M + 1); split.
    - apply in_zrange; lia.
    - apply in_map_iff; exists (M + 1); split; [reflexivity |].
      apply filter_In; split; [apply in_zrange; lia |].
      apply Z.ltb_lt; rewrite Z.sub_diag; nia. }
  assert (Hg : get mk (M + 1) (M + 1) <> 0).
  { unfold mk, mask_of_pixels; cbn [get].
    replace (existsb _ px) with true; [discriminate |].
    symmetry; apply existsb_exists; exists (M + 1, M + 1); split; [exact Hpx |].
    cbn; rewrite Z.eqb_refl; reflexivity. }
  destruct (crop_to_foreground mk) as [m|] eqn:Ec.
  - exists m; split; [reflexivity |].
    destruct (crop_to_foreground_spec mk m Ec) as (r0 & c0 & Hk & _).
    destruct (Hk (M + 1) (M + 1) ltac:(unfold mk; cbn [rows mask_of_pixels]; lia) ltac:(unfold mk; cbn [cols mask_of_pixels]; lia) Hg) as (Hr & Hc & _); lia.
  - exfalso; unfold crop_to_foreground in Ec.
    destruct (where2 mk) eqn:Ew; [| discriminate].
    assert (Hw : In (M + 1, M + 1) (where2 mk)) by (apply in_where2; unfold mk at 1 2; cbn [rows cols mask_of_pixels]; repeat split; lia || exact Hg).
    rewrite Ew in Hw; exact Hw.
Qed.

Lemma create_ellipse_rot0_some_witness :
  exists m, create_ellipse_rot0 2 3 = Some m /\ 1 <= rows m /\ 1 <= cols m.
Proof. apply (create_ellipse_rot0_some 2 3); lia. Defined.

Lemma crop_to_foreground_keeps_foreground_witness :
  exists m, crop_to_foreground (of_rows [[0; 0; 0]; [0; 3; 0]; [0; 0; 3]]) = Some m /\
  exists r0 c0,
    (forall r c, 0 <= r < 3 -> 0 <= c < 3 ->
       get (of_rows [[0; 0; 0]; [0; 3; 0]; [0; 0; 3]]) r c <> 0 ->
       0 <= r - r0 < rows m /\ 0 <= c - c0 < cols m /\
       get m (r - r0) (c - c0) = get (of_rows [[0; 0; 0]; [0; 3; 0]; [0; 0; 3]]) r c) /\
    (exists j, 0 <= j < cols m /\ get m 0 j <> 0) /\
    (exists i, 0 <= i < rows m /\ get m i 0 <> 0).
Proof.
  destruct (crop_to_foreground (of_rows [[0; 0; 0]; [0; 3; 0]; [0; 0; 3]])) as [m |] eqn:E;
    [| vm_compute in E; discriminate].
  exists m; split; [reflexivity |].
  exact (crop_to_foreground_keeps_foreground _ m E).
Defined.

Lemma disk_origin (t : Z) : disk t <> [] -> In (0, 0) (disk t).
Proof.
  intros Hne; unfold disk in *.
  destruct (Z.ltb_spec t 0) as [Hlt|Hge].
  - exfalso; apply Hne; unfold zrange.
    replace (Z.to_nat (t + 1 - - t)) with O by lia; reflexivity.
  - apply in_flat_map; exists 0; split; [apply in_zrange; lia |].
    apply in_map_iff; exists 0; split; [reflexivity |].
    apply filter_In; split; [apply in_zrange; lia | apply Z.leb_le; lia].
Qed.

(** X15: the liquid container rule keeps the mask's shape, label and liquid label, and changes only pixels inside the mask whose value divided by the label is non-zero, each to [-1] or to the liquid label. *)
Theorem apply_liquid_container_rule_frame (o : container) :
  rows (data (apply_liquid_container_rule o)) = rows (data o) /\
  cols (data (apply_liquid_container_rule o)) = cols (data o) /\
  label (apply_liquid_container_rule o) = label o /\
  lqd_label (apply_liquid_container_rule o) = lqd_label o /\
  forall r c, get (data (apply_liquid_container_rule o)) r c <> get (data o) r c ->
    0 <= r < rows (data o) /\ 0 <= c < cols (data o) /\ get (data o) r c / label o <> 0 /\
    (get (data (apply_liquid_container_rule o)) r c = -1 \/
     get (data (apply_liquid_container_rule o)) r c = lqd_label o).
Proof.
  unfold apply_liquid_container_rule, liquid_cavity, sk_binary_erosion, binary_erosion.
  destruct (is_nil (disk (cntr_thickness o))) eqn:Ed.
  { cbv iota; refine (conj eq_refl (conj eq_refl (conj eq_refl (conj eq_refl _)))).
    intros r c H; contradiction H; reflexivity. }
  assert (H0 : In (0, 0) (disk (cntr_thickness o)))
    by (apply disk_origin; intros E; rewrite E in Ed; discriminate).
  cbv iota.
  set (er := mk_arr2 _ _ _).
  destruct (is_nil (map fst (where2 er))).
  { cbv iota; refine (conj eq_refl (conj eq_refl (conj eq_refl (conj eq_refl _)))).
    intros r c H; contradiction H; reflexivity. }
  cbv iota; cbn [data label lqd_label].
  assert (Her : forall r c, 0 <= r < rows (data o) -> 0 <= c < cols (data o) -> get er r c <> 0 ->
                  get (data o) r c / label o <> 0).
  { intros r c Hr Hc; unfold er; cbn [get rows cols floordiv2].
    destruct (forallb _ _) eqn:Ef; [intros _ | intros H; contradiction H; reflexivity].
    rewrite forallb_forall in Ef; specialize (Ef _ H0); cbn [fst snd] in Ef.
    rewrite !Z.add_0_r in Ef.
    rewrite (proj2 (Z.leb_le 0 r)), (proj2 (Z.ltb_lt r _)), (proj2 (Z.leb_le 0 c)),
      (proj2 (Z.ltb_lt c _)) in Ef by (cbn; lia).
    cbn [andb] in Ef; apply negb_true_iff, Z.eqb_neq in Ef; exact Ef. }
  unfold assign_where, zero_rows_upto; cbn [rows cols get].
  destruct (slice_bounds (rows er) 0 _) as [rs re]; cbn [rows cols get].
  refine (conj eq_refl (conj eq_refl (conj eq_refl (conj eq_refl _)))).
  intros r c H.
  destruct ((0 <=? r) && (r <? rows (data o)) && (0 <=? c) && (c <? cols (data o))) eqn:Eb;
    [| cbn [andb] in H; contradiction H; reflexivity].
  repeat rewrite andb_true_iff in Eb; destruct Eb as (((B1 & B2) & B3) & B4).
  apply Z.leb_le in B1; apply Z.ltb_lt in B2; apply Z.leb_le in B3; apply Z.ltb_lt in B4.
  cbn [andb] in H |- *.
  split; [lia | split; [lia |]].
  destruct (Z.eqb_spec (get er r c) 0) as [E|E].
  - cbn [negb] in H |- *.
    destruct ((rs <=? r) && (r <? re)); rewrite ?E in H |- *; cbn in H |- *;
      contradiction H; reflexivity.
  - split; [exact (Her r c ltac:(lia) ltac:(lia) E) |].
    cbn [negb]; destruct (negb (_ =? 0)); [right | left]; reflexivity.
Qed.

Lemma slice_len_le (n s k : Z) :
  0 <= n -> 0 <= k -> snd (slice_bounds n s (s + k)) - fst (slice_bounds n s (s + k)) <= k.
Proof.
  intros Hn Hk; unfold slice_bounds; cbn [fst snd].
  pose proof (py_norm_lipschitz n s k Hn Hk); lia.
Qed.

(** X16: with both rules off, [add_object] raises a [ValueError] for a mask that has its full [dim] rows (or columns) with [dim] at least 2 on that axis, since the target slice only spans [dim // 2] of them. *)
Theorem add_object_direct_rejects_tall
    (sheet_rule : bag -> heap -> obj2 -> option (py_exc + (bool * (bag * heap * obj2))))
    (b : bag) (h : heap) (o : obj2) :
  0 <= rows (ws_bag b) -> 0 <= cols (ws_bag b) ->
  (rows (odata o) = fst (odim o) /\ 2 <= fst (odim o)) \/
  (cols (odata o) = snd (odim o) /\ 2 <= snd (odim o)) ->
  add_object sheet_rule b h o false false = Some (inl ValueError).
Proof.
  intros HR HC Hd; unfold add_object, add_object_direct.
  destruct (pose_at h (opose o)) as [p0 p1].
  destruct (odim o) as [d0 d1] eqn:Ed; cbn [fst snd] in Hd.
  pose proof (slice_len_le (rows (ws_bag b)) p0 (d0 / 2) HR) as L0.
  pose proof (slice_len_le (cols (ws_bag b)) p1 (d1 / 2) HC) as L1.
  pose proof (slice_bounds_range (rows (ws_bag b)) p0 (p0 + d0 / 2) HR) as N0.
  pose proof (slice_bounds_range (cols (ws_bag b)) p1 (p1 + d1 / 2) HC) as N1.
  destruct (slice_bounds (rows (ws_bag b)) p0 (p0 + d0 / 2)) as [rs re].
  destruct (slice_bounds (cols (ws_bag b)) p1 (p1 + d1 / 2)) as [cs ce].
  cbn [fst snd] in *.
  unfold broadcast_ok.
  destruct Hd as [[Hr Hd] | [Hc Hd]].
  - assert (Hlt : re - rs < rows (odata o)).
    { specialize (L0 ltac:(apply Z.div_pos; lia)).
      pose proof (Z.div_lt d0 2 ltac:(lia) ltac:(lia)); lia. }
    rewrite (proj2 (Z.eqb_neq (rows (odata o)) (re - rs))) by lia.
    rewrite (proj2 (Z.eqb_neq (rows (odata o)) 1)) by lia.
    reflexivity.
  - assert (Hlt : ce - cs < cols (odata o)).
    { specialize (L1 ltac:(apply Z.div_pos; lia)).
      pose proof (Z.div_lt d1 2 ltac:(lia) ltac:(lia)); lia. }
    rewrite (proj2 (Z.eqb_neq (cols (odata o)) (ce - cs))) by lia.
    rewrite (proj2 (Z.eqb_neq (cols (odata o)) 1)) by lia.
    rewrite andb_false_r; reflexivity.
Qed.

Lemma add_object_direct_rejects_tall_witness :
  add_object (fun _ _ _ => Some (inl ValueError))
    (mk_bag (zeros 4 4) (zeros 4 4) 4 2 false) [(0, 0)]
    (mk_obj2 (of_rows [[1]; [1]]) (2, 1) 0 false) false false = Some (inl ValueError).
Proof.
  apply add_object_direct_rejects_tall;
    [cbn; lia | cbn; lia | left; split; [reflexivity | cbn; lia]].
Defined.

Lemma overlap_rule_frame (b b' : bag) (h h' : heap) (o : obj2) (fix_obj rsh csh : bool) :
  (opose o < length h)%nat ->
  run_shape_grammar_overlap b h o fix_obj rsh csh = Some (inr (b', h')) ->
  length h' = length h /\
  (forall q, q <> opose o -> pose_at h' q = pose_at h q) /\
  boundary b' = boundary b /\ size b' = size b /\ bb_h b' = bb_h b.
Proof.
  intros Hl H; unfold run_shape_grammar_overlap, run_shape_grammar_overlap_fuel in H.
  destruct (get_overlap b (odata o) (pose_at h (opose o))) as [fl oi].
  destruct fl.
  - destruct (overlap_while 10 b o _) as [[e | s]|] eqn:Ew; try discriminate.
    destruct (overlap_while_frame b o 10
      (mk_ol_loop h rsh csh (LATERAL_OSC_FLAG b) [opose o] 0 true oi) s Hl Ew) as (L & O & _);
      cbn [ol_heap] in *.
    destruct fix_obj; injection H as <- <-; repeat split; auto.
  - destruct fix_obj; injection H as <- <-; repeat split; auto.
Qed.

Lemma settle_while_frame (o : obj2) :
  forall n b h ctr pp ovl osc b' h' c' osc',
  (opose o < length h)%nat ->
  settle_while n b h o ctr pp ovl osc = Some (inr (b', h', c', osc')) ->
  length h' = length h /\
  (forall q, q <> opose o -> pose_at h' q = pose_at h q) /\
  boundary b' = boundary b /\ size b' = size b /\ bb_h b' = bb_h b.
Proof.
  induction n as [|n IH]; intros b h ctr pp ovl osc b' h' c' osc' Hl H; cbn [settle_while] in H.
  - destruct ovl; [discriminate |]; injection H as <- <- _ _; repeat split; auto.
  - destruct ovl; cbn [negb] in H; [| injection H as <- <- _ _; repeat split; auto].
    destruct (run_shape_grammar_overlap b h o false true true) as [[e | [b1 h1]]|] eqn:Er;
      try discriminate.
    destruct (overlap_rule_frame b b1 h h1 o false true true Hl Er) as (L & O & B & S & T).
    destruct (10 <? ctr + 1).
    + injection H as <- <- _ _; repeat split; auto.
    + destruct (IH b1 h1 _ _ _ _ b' h' c' osc' ltac:(rewrite L; exact Hl) H) as (L' & O' & B' & S' & T').
      split; [congruence |]; split; [intros q Hq; rewrite O', O by exact Hq; reflexivity |].
      repeat split; congruence.
Qed.

Section GravityFrame.

Variable sheet_rule : bag -> heap -> obj2 -> option (py_exc + (bool * (bag * heap * obj2))).
Hypothesis sheet_frame : forall b h o brk b' h' o',
  (opose o < length h)%nat ->
  sheet_rule b h o = Some (inr (brk, (b', h', o'))) ->
  opose o' = opose o /\ length h' = length h /\
  (forall q, q <> opose o -> pose_at h' q = pose_at h q) /\
  boundary b' = boundary b /\ size b' = size b /\ bb_h b' = bb_h b.

Lemma gravity_iter_frame (z_inc : Z) (gs gs' : gstate) (brk : bool) :
  (opose (g_obj gs) < length (g_heap gs))%nat ->
  gravity_iter sheet_rule z_inc gs = Some (inr (brk, gs')) ->
  opose (g_obj gs') = opose (g_obj gs) /\ length (g_heap gs') = length (g_heap gs) /\
  (forall q, q <> opose (g_obj gs) -> pose_at (g_heap gs') q = pose_at (g_heap gs) q) /\
  boundary (g_bag gs') = boundary (g_bag gs) /\ size (g_bag gs') = size (g_bag gs) /\
  bb_h (g_bag gs') = bb_h (g_bag gs).
Proof.
  destruct gs as [b0 h0 o ctr0 dc0]; cbn [g_bag g_heap g_obj g_ol_ctr drop_ctr].
  intros Hl H; unfold gravity_iter in H; cbn [g_bag g_heap g_obj g_ol_ctr drop_ctr] in H.
  set (p := opose o) in *.
  set (h1 := set_pose h0 p _) in H.
  assert (L1 : length h1 = length h0) by (apply set_pose_length; exact Hl).
  assert (O1 : forall q, q <> p -> pose_at h1 q = pose_at h0 q)
    by (intros; apply pose_at_set_other; auto).
  assert (Hl1 : (p < length h1)%nat) by (rewrite L1; exact Hl).
  destruct (is_sheet o).
  - destruct (sheet_rule _ h1 o) as [[e | [brk' [[b' h'] o']]]|] eqn:Es; try discriminate.
    injection H as <- <-; cbn [g_bag g_heap g_obj].
    destruct (sheet_frame _ _ _ _ _ _ _ Hl1 Es) as (P & L & O & B & S & T).
    split; [exact P | split; [congruence |]].
    split; [intros q Hq; rewrite O, O1 by exact Hq; reflexivity |].
    cbn [boundary size bb_h set_lat] in B, S, T; repeat split; assumption.
  - destruct (_ <=? _).
    + set (h2 := set_pose h1 p _) in H.
      assert (L2 : length h2 = length h0) by (unfold h2; rewrite set_pose_length; auto).
      assert (O2 : forall q, q <> p -> pose_at h2 q = pose_at h0 q)
        by (intros q Hq; unfold h2; rewrite pose_at_set_other by auto; auto).
      destruct (fst (get_overlap _ _ (pose_at h2 p))).
      * destruct (run_shape_grammar_overlap _ h2 o false false true) as [[e | [b3 h3]]|] eqn:Er;
          try discriminate.
        destruct (overlap_rule_frame _ b3 h2 h3 o false false true ltac:(rewrite L2; exact Hl) Er)
          as (L & O & B & S & T).
        injection H as <- <-; cbn [g_bag g_heap g_obj boundary size bb_h set_ws set_lat] in *.
        split; [reflexivity | split; [congruence |]].
        split; [intros q Hq; rewrite O, O2 by exact Hq; reflexivity |].
        repeat split; assumption.
      * injection H as <- <-; cbn [g_bag g_heap g_obj boundary size bb_h set_lat].
        split; [reflexivity | split; [exact L2 | split; [exact O2 | repeat split]]].
    + destruct (fst (get_overlap _ _ (pose_at h1 p))).
      * destruct (settle_while _ _ h1 o _ _ _ _) as [[e | [[[b4 h4] c4] osc4]]|] eqn:Es;
          try discriminate.
        destruct (settle_while_frame o _ _ _ _ _ _ _ b4 h4 c4 osc4 Hl1 Es) as (L & O & B & S & T).
        injection H as <- <-; cbn [g_bag g_heap g_obj boundary size bb_h set_lat] in *.
        split; [reflexivity | split; [congruence |]].
        split; [intros q Hq; rewrite O, O1 by exact Hq; reflexivity |].
        repeat split; assumption.
      * injection H as <- <-; cbn [g_bag g_heap g_obj boundary size bb_h set_lat].
        split; [reflexivity | split; [exact L1 | split; [exact O1 | repeat split]]].
Qed.

Lemma gravity_while_frame (z_inc : Z) :
  forall n gs gs', (opose (g_obj gs) < length (g_heap gs))%nat ->
  gravity_while sheet_rule n z_inc gs = Some (inr gs') ->
  opose (g_obj gs') = opose (g_obj gs) /\ length (g_heap gs') = length (g_heap gs) /\
  (forall q, q <> opose (g_obj gs) -> pose_at (g_heap gs') q = pose_at (g_heap gs) q) /\
  boundary (g_bag gs') = boundary (g_bag gs) /\ size (g_bag gs') = size (g_bag gs) /\
  bb_h (g_bag gs') = bb_h (g_bag gs).
Proof.
  induction n as [|n IH]; intros gs gs' Hl H; cbn [gravity_while] in H.
  - destruct (drop_ctr gs <? 50); [discriminate |]; injection H as <-; repeat split; auto.
  - destruct (drop_ctr gs <? 50); [| injection H as <-; repeat split; auto].
    destruct (gravity_iter sheet_rule z_inc gs) as [[e | [brk gs1]]|] eqn:Ei; try discriminate.
    destruct (gravity_iter_frame z_inc gs gs1 brk Hl Ei) as (P & L & O & B & S & T).
    destruct brk.
    + injection H as <-; repeat split; auto.
    + destruct (IH gs1 gs' ltac:(rewrite P, L; exact Hl) H) as (P' & L' & O' & B' & S' & T').
      split; [congruence | split; [congruence |]].
      split; [intros q Hq; rewrite O', O by (rewrite ?P; exact Hq); reflexivity |].
      repeat split; congruence.
Qed.

End GravityFrame.

(** X9: when the sheet rule keeps the object's pose reference, the other poses and the bag's fixed fields, a run of the gravity rule that ends normally does the same: only the object's own pose may change, and the boundary, [size] and [bb_h] are kept. *)
Theorem gravity_rule_frame
    (sheet_rule : bag -> heap -> obj2 -> option (py_exc + (bool * (bag * heap * obj2))))
    (z_inc : Z) (b b' : bag) (h h' : heap) (o o' : obj2) :
  (forall b h o brk b' h' o',
     (opose o < length h)%nat ->
     sheet_rule b h o = Some (inr (brk, (b', h', o'))) ->
     opose o' = opose o /\ length h' = length h /\
     (forall q, q <> opose o -> pose_at h' q = pose_at h q) /\
     boundary b' = boundary b /\ size b' = size b /\ bb_h b' = bb_h b) ->
  (opose o < length h)%nat ->
  run_shape_grammar_overlap_and_gravity sheet_rule z_inc b h o = Some (inr (b', h', o')) ->
  opose o' = opose o /\ length h' = length h /\
  (forall q, q <> opose o -> pose_at h' q = pose_at h q) /\
  boundary b' = boundary b /\ size b' = size b /\ bb_h b' = bb_h b.
Proof.
  intros Hsr Hl H.
  unfold run_shape_grammar_overlap_and_gravity, run_shape_grammar_overlap_and_gravity_fuel in H.
  destruct (gravity_while sheet_rule 50 z_inc (mk_gstate b h o 0 0)) as [[e | gs]|] eqn:Eg;
    try discriminate.
  destruct (gravity_while_frame sheet_rule Hsr z_inc 50 (mk_gstate b h o 0 0) gs Hl Eg)
    as (P & L & O & B & S & T); cbn [g_bag g_heap g_obj] in *.
  destruct (adjust_for_boundaries (g_bag gs) (g_heap gs) (g_obj gs)) as [h2 o2] eqn:Ea.
  destruct (adjust_for_boundaries_spec (g_bag gs) (g_heap gs) h2 (g_obj gs) o2
              ltac:(rewrite P, L; exact Hl) Ea) as (_ & _ & _ & _ & P2 & _ & L2 & O2).
  injection H as <- <- <-; cbn [boundary size bb_h set_ws].
  split; [congruence | split; [congruence |]].
  split; [intros q Hq; rewrite O2, O by (rewrite ?P; exact Hq); reflexivity |].
  repeat split; assumption.
Qed.

Lemma gravity_rule_frame_witness :
  exists b' h' o',
    run_shape_grammar_overlap_and_gravity
      (fun (b0 : bag) (h0 : heap) (o0 : obj2) => Some (inr (true, (b0, h0, o0)))) 50
      (mk_bag (zeros 20 20) (zeros 20 20) 20 8 false) [(0, 0); (3, 5)] (mk_obj2 (of_rows [[1; 1; 1]; [0; 0; 0]]) (2, 3) 1 false)
      = Some (inr (b', h', o')) /\
    opose o' = 1%nat /\ length h' = 2%nat /\
    (forall q, q <> 1%nat -> pose_at h' q = pose_at [(0, 0); (3, 5)] q) /\
    boundary b' = zeros 20 20 /\ size b' = 20 /\ bb_h b' = 8.
Proof.
  destruct (run_shape_grammar_overlap_and_gravity
      (fun (b0 : bag) (h0 : heap) (o0 : obj2) => Some (inr (true, (b0, h0, o0)))) 50
      (mk_bag (zeros 20 20) (zeros 20 20) 20 8 false) [(0, 0); (3, 5)] (mk_obj2 (of_rows [[1; 1; 1]; [0; 0; 0]]) (2, 3) 1 false))
    as [[e | [[b' h'] o']] |] eqn:E; try (vm_compute in E; discriminate).
  exists b', h', o'; split; [reflexivity |].
  refine (gravity_rule_frame _ 50 _ b' _ h' _ o' _ _ E); [| cbn; lia].
  intros b0 h0 o0 brk b1 h1 o1 _ Hs; injection Hs as _ <- <- <-.
  repeat split; auto.
Defined.
